(** * PDFcompression: the quality search of [compress_pdf] and the batch
    walk of [find_and_compress_pdfs] (src/pdf_compression.py).

    The Python program is embedded as functions over an explicit [world]
    (file system, [./failures.log], standard output and the history of
    file-system and tool events).  Code that can raise lives in a small
    state-and-exception monad [io]; [try ... except] is [try_except].
    The external tool [ocrmypdf] is a black box: an arbitrary function of
    the history so far and of the command line, whose answer says what
    [subprocess.run] observed. *)

From Stdlib Require Import ZArith QArith List String Ascii Lia.
From stdpp Require Import base gmap list strings pretty.
From Equations Require Import Equations.
From Equations.Prop Require Import Logic.
Import ListNotations.
Open Scope string_scope.
Open Scope list_scope.
Open Scope Z_scope.

(** ** Paths

    A [pathlib] path is the list of its components ([PurePath.parts]) in
    the POSIX flavour: an absolute path starts with the part [/]; the
    empty list is the directory the relative paths start from.  The paths
    of files and directories have a part after the root; a world with
    absolute paths holds the entry of the root directory. *)

Abbreviation path := (list string).

(** [str(path)] of a POSIX path: the parts joined by [/], after the root
    when the first part is one, and [.] for the empty path. *)
Definition path_str (p : path) : string :=
  match p with
  | [] => "."
  | first :: rest =>
      if (String.eqb first "/" || String.eqb first "//")%bool
      then first +:+ String.concat "/" rest
      else String.concat "/" p
  end.

Definition name (p : path) : string := List.last p "".

Definition parent (p : path) : path := removelast p.

(** [dest_path / relative_path] *)
Definition joinpath (a b : path) : path := a ++ b.

(** [str.rfind] for one character: index of its last occurrence. *)
Fixpoint rfind (c : ascii) (s : string) : option nat :=
  match s with
  | EmptyString => None
  | String a s' =>
      match rfind c s' with
      | Some i => Some (S i)
      | None => if Ascii.eqb a c then Some O else None
      end
  end.

(** [PurePath.suffix]: the part of the name from its last dot on, unless
    that dot is the first or the last character. *)
Definition suffix (nm : string) : string :=
  match rfind "."%char nm with
  | Some i =>
      if ((0 <? i)%nat && (i <? String.length nm - 1)%nat)%bool
      then substring i (String.length nm - i) nm
      else ""
  | None => ""
  end.

(** ** Exceptions and results *)

(** The exception classes the handlers of the program tell apart. *)
Inductive exn :=
| CalledProcessError (stderr : string)   (* nonzero exit status; captured bytes *)
| FileNotFoundError (msg : string)
| Exception (msg : string).              (* any other subclass of Exception *)

(** Bytes are kept in a [string], one character per byte. *)
Definition byte_in (lo hi : N) (c : ascii) : bool :=
  ((lo <=? N_of_ascii c)%N && (N_of_ascii c <=? hi)%N)%bool.

(** The first two bytes of a well-formed three-byte sequence. *)
Definition three_bytes_start (a b : ascii) : bool :=
  ((byte_in 224 224 a && byte_in 160 191 b)
   || ((byte_in 225 236 a || byte_in 238 239 a) && byte_in 128 191 b)
   || (byte_in 237 237 a && byte_in 128 159 b))%bool.

(** The first two bytes of a well-formed four-byte sequence. *)
Definition four_bytes_start (a b : ascii) : bool :=
  ((byte_in 240 240 a && byte_in 144 191 b)
   || (byte_in 241 243 a && byte_in 128 191 b)
   || (byte_in 244 244 a && byte_in 128 143 b))%bool.

(** Well-formed UTF-8, as the strict decoder of Python accepts it: no
    overlong form, no surrogate, nothing above U+10FFFF. *)
Fixpoint utf8_valid (s : string) : bool :=
  match s with
  | EmptyString => true
  | String a rest =>
      if byte_in 0 127 a then utf8_valid rest
      else
        match rest with
        | EmptyString => false
        | String b rest2 =>
            if byte_in 194 223 a then (byte_in 128 191 b && utf8_valid rest2)%bool
            else
              match rest2 with
              | EmptyString => false
              | String c rest3 =>
                  if three_bytes_start a b
                  then (byte_in 128 191 c && utf8_valid rest3)%bool
                  else
                    match rest3 with
                    | EmptyString => false
                    | String d rest4 =>
                        (four_bytes_start a b && byte_in 128 191 c
                         && byte_in 128 191 d && utf8_valid rest4)%bool
                    end
              end
        end
  end.

Definition str_exn (e : exn) : string :=
  match e with
  | CalledProcessError _ => "Command returned non-zero exit status."
  | FileNotFoundError msg => msg
  | Exception msg => msg
  end.

Inductive res (A : Type) :=
| Val (a : A)
| Exc (e : exn).
Arguments Val {A} a.
Arguments Exc {A} e.

(** [bytes.decode()]: the text of well-formed UTF-8 (kept as its bytes),
    UnicodeDecodeError otherwise (its message is not detailed). *)
Definition decode (b : string) : res string :=
  if utf8_valid b then Val b
  else Exc (Exception "'utf-8' codec can't decode bytes").

(** [PurePath.with_suffix]: replaces the suffix of the last component, or
    appends when there is none; a path with an empty name is refused. *)
Definition with_suffix (p : path) (sfx : string) : res path :=
  let nm := name p in
  if String.eqb nm "" then Exc (Exception (path_str p +:+ " has an empty name"))
  else
    let old_suffix := suffix nm in
    let nm' :=
      if String.eqb old_suffix "" then nm +:+ sfx
      else substring 0 (String.length nm - String.length old_suffix) nm +:+ sfx in
    Val (removelast p ++ [nm']).

(** [PurePath.relative_to]: strips [base] from the front of [p]. *)
Fixpoint relative_to (p base : path) : res path :=
  match base, p with
  | [], _ => Val p
  | b :: base', c :: p' =>
      if String.eqb b c then relative_to p' base'
      else Exc (Exception "path is not in the subpath of the base")
  | _ :: _, [] => Exc (Exception "path is not in the subpath of the base")
  end.

(** ** The world *)

Record stat_result := { st_isdir : bool; st_size : Z; st_mtime : Z }.

(** Command line of one run of the tool:
    [ocrmypdf --optimize 3 --jpeg-quality <q> <input> <output>]. *)
Record invocation := { jpeg_quality : Z; inv_input : path; inv_output : path }.

Definition argv (c : invocation) : list string :=
  ["ocrmypdf"; "--optimize"; "3"; "--jpeg-quality"; pretty (jpeg_quality c);
   path_str (inv_input c); path_str (inv_output c)].

(** What [subprocess.run(cmd, check=True, capture_output=True)] observes. *)
Inductive run_result :=
| Exit0 (size : Z)
    (* exit status 0; a file of [size] bytes is at the output path *)
| ExitNonzero (stderr : string) (partial : option Z)
    (* nonzero exit status with the captured bytes of the standard error;
       the tool may leave a partial output file *)
| CommandNotFound
    (* the executable is not on the PATH *)
| OtherFailure (msg : string).
    (* any other exception raised while starting the process *)

Inductive event :=
| EvRun (c : invocation) (r : run_result)
| EvMove (src dst : path)
| EvUnlink (p : path)
| EvMkdir (p : path).

Record world := {
  fs : gmap path stat_result;     (* files and directories *)
  failures_log : list string;     (* the lines of LOG_FILE *)
  stdout : list string;           (* what [print] wrote *)
  trace : list event;             (* tool runs and file-system updates *)
  clock : Z                       (* current time, for st_mtime *)
}.

Definition set_fs (f : gmap path stat_result -> gmap path stat_result) (w : world) : world :=
  {| fs := f (fs w); failures_log := failures_log w; stdout := stdout w;
     trace := trace w; clock := clock w |}.

Definition add_event (e : event) (w : world) : world :=
  {| fs := fs w; failures_log := failures_log w; stdout := stdout w;
     trace := trace w ++ [e]; clock := clock w |}.

Definition tick (w : world) : world :=
  {| fs := fs w; failures_log := failures_log w; stdout := stdout w;
     trace := trace w; clock := clock w + 1 |}.

(** The external tool: any function of the history and the command line. *)
Definition tool := list event -> invocation -> run_result.

(** ** The monad of effectful code *)

Definition io (A : Type) := world -> res A * world.

Definition ret {A} (a : A) : io A := fun w => (Val a, w).

Definition raise {A} (e : exn) : io A := fun w => (Exc e, w).

Definition bind {A B} (m : io A) (k : A -> io B) : io B :=
  fun w => match m w with
           | (Val a, w') => k a w'
           | (Exc e, w') => (Exc e, w')
           end.

Definition lift {A} (r : res A) : io A := fun w => (r, w).

(** [try: body except ...: handler] *)
Definition try_except {A} (body : io A) (handler : exn -> io A) : io A :=
  fun w => match body w with
           | (Val a, w') => (Val a, w')
           | (Exc e, w') => handler e w'
           end.

Notation "'let*' x ':=' m 'in' k" := (bind m (fun x => k))
  (at level 10, x name, m at level 100, k at level 200).
Notation "m ';;' k" := (bind m (fun _ => k))
  (at level 100, k at level 200, right associativity).

(** ** File-system primitives *)

(** The starting directory [[]] always exists. *)
Definition root_stat : stat_result := {| st_isdir := true; st_size := 0; st_mtime := 0 |}.

Definition lookup_path (f : gmap path stat_result) (p : path) : option stat_result :=
  match p with
  | [] => Some root_stat
  | _ => f !! p
  end.

Definition present {A} (o : option A) : bool :=
  match o with
  | Some _ => true
  | None => false
  end.

(** [Path.exists] *)
Definition exists_ (p : path) : io bool :=
  fun w => (Val (present (lookup_path (fs w) p)), w).

(** [Path.stat] *)
Definition stat (p : path) : io stat_result :=
  fun w => match lookup_path (fs w) p with
           | Some s => (Val s, w)
           | None => (Exc (FileNotFoundError ("No such file or directory: " +:+ path_str p)), w)
           end.

Definition is_dir (f : gmap path stat_result) (p : path) : bool :=
  match lookup_path f p with
  | Some s => st_isdir s
  | None => false
  end.

(** [Path.unlink(missing_ok=True)] *)
Definition unlink (p : path) : io unit :=
  fun w => match lookup_path (fs w) p with
           | None => (Val tt, w)
           | Some s =>
               if st_isdir s
               then (Exc (Exception ("Is a directory: " +:+ path_str p)), w)
               else (Val tt, add_event (EvUnlink p) (set_fs (delete p) w))
           end.

(** [shutil.move(src, dst)]: a rename; an existing directory [dst] receives
    the file under its own name, and an occupied place there is refused. *)
Definition shutil_move (src dst : path) : io unit :=
  fun w =>
    match lookup_path (fs w) src with
    | None => (Exc (FileNotFoundError ("No such file or directory: " +:+ path_str src)), w)
    | Some s =>
        let real_dst := if is_dir (fs w) dst then dst ++ [name src] else dst in
        if (is_dir (fs w) dst && present (lookup_path (fs w) real_dst))%bool
        then (Exc (Exception ("Destination path already exists: " +:+ path_str real_dst)), w)
        else (Val tt, add_event (EvMove src real_dst)
                        (set_fs (fun f => <[real_dst := s]> (delete src f)) w))
    end.

Definition print (s : string) : io unit :=
  fun w => (Val tt,
            {| fs := fs w; failures_log := failures_log w; stdout := stdout w ++ [s];
               trace := trace w; clock := clock w |}).

(** [with open(LOG_FILE, 'a') as log: log.write(line)] *)
Definition log_write (line : string) : io unit :=
  fun w => (Val tt,
            {| fs := fs w; failures_log := failures_log w ++ [line]; stdout := stdout w;
               trace := trace w; clock := clock w |}).

(** [os.mkdir]: the place must be free and its parent an existing
    directory. *)
Definition os_mkdir (p : path) : io unit :=
  fun w =>
    if present (lookup_path (fs w) p)
    then (Exc (Exception ("File exists: " +:+ path_str p)), w)
    else match lookup_path (fs w) (parent p) with
         | None => (Exc (FileNotFoundError ("No such file or directory: " +:+ path_str p)), w)
         | Some s =>
             if st_isdir s
             then (Val tt,
                   add_event (EvMkdir p)
                     (set_fs <[p := {| st_isdir := true; st_size := 0; st_mtime := clock w |}]> w))
             else (Exc (Exception ("Not a directory: " +:+ path_str p)), w)
         end.

Lemma removelast_shorter (p : path) : p <> [] -> (length (removelast p) < length p)%nat.
Proof.
  intros Hp. destruct (exists_last Hp) as (q & a & ->).
  rewrite removelast_last, length_app. simpl. lia.
Qed.

(** [Path.mkdir(parents=False, exist_ok=True)] *)
Definition mkdir_exist_ok (p : path) : io unit :=
  try_except (os_mkdir p)
    (fun e => match e with
              | FileNotFoundError _ => raise e
              | _ => fun w => if is_dir (fs w) p then (Val tt, w) else (Exc e, w)
              end).

(** [Path.mkdir(parents=True, exist_ok=True)]: a missing parent is created
    first; an existing directory is accepted, an existing file is not. *)
Equations? mkdir_parents (p : path) (w : world) : res unit * world by wf (length p) lt :=
mkdir_parents p w with inspect (os_mkdir p w) := {
  | exist _ (Val _, w') _ := (Val tt, w')
  | exist _ (Exc (FileNotFoundError msg), w') _ with inspect p := {
      | exist _ [] _ := (Exc (FileNotFoundError msg), w')
      | exist _ (c :: q) Hp with inspect (mkdir_parents (parent p) w') := {
          | exist _ (Val _, w'') _ := mkdir_exist_ok p w''
          | exist _ (Exc e, w'') _ := (Exc e, w'') } }
  | exist _ (Exc e, w') _ :=
      if is_dir (fs w') p then (Val tt, w') else (Exc e, w') }.
Proof.
  change (length (removelast (c :: q)) < length (c :: q))%nat.
  apply removelast_shorter. discriminate.
Qed.

(** [name.endswith(sfx)] *)
Definition ends_with (sfx s : string) : bool :=
  ((String.length sfx <=? String.length s)%nat &&
   String.eqb (substring (String.length s - String.length sfx) (String.length sfx) s) sfx)%bool.

(** [p] lies strictly below [base]. *)
Fixpoint below (base p : path) : bool :=
  match base, p with
  | [], _ :: _ => true
  | b :: base', c :: p' => (String.eqb b c && below base' p')%bool
  | _, [] => false
  end.

(** [list(source_path.glob('**/*.pdf'))]: every entry below the source
    whose name ends in [.pdf], in the order the directory scan yields. *)
Definition glob_pdf (source_path : path) : io (list path) :=
  fun w => (Val (List.filter (fun p => below source_path p && ends_with ".pdf" (name p))%bool
                        (map fst (map_to_list (fs w)))), w).

(** ** Numbers of the search *)

(** A Python float, carried as its exact value and its [str()]. *)
Record float := { float_value : Q; float_str : string }.

(** The default [target_size_mb=1.5]. *)
Definition default_target_size_mb : float := {| float_value := 3 # 2; float_str := "1.5" |}.

(** [current_size <= target_size_mb * 1024 * 1024]; Python compares an int
    with a float exactly, and the products by 1024 are exact. *)
Definition within_target (current_size : Z) (target_size_mb : float) : bool :=
  Qle_bool (inject_Z current_size) (float_value target_size_mb * 1024 * 1024)%Q.

(** [min_size_so_far]: [float('inf')] until a size is recorded. *)
Inductive number :=
| Inf
| Int (n : Z).

Definition lt_number (a : Z) (b : number) : bool :=
  match b with
  | Inf => true
  | Int n => a <? n
  end.

(** Nearest integer to [num / den], ties to even. *)
Definition round_half_even (num den : Z) : Z :=
  let q := num / den in
  let r := num mod den in
  if 2 * r <? den then q
  else if den <? 2 * r then q + 1
  else if Z.even q then q else q + 1.

Definition two_digits (d : Z) : string :=
  if d <? 10 then "0" +:+ pretty d else pretty d.

(** The double nearest to a natural number [n], ties to even: [n] itself
    up to 53 bits, else [n] rounded to its 53 leading bits. *)
Definition nearest_double (n : Z) : Z :=
  let bits := Z.log2 n + 1 in
  if bits <=? 53 then n
  else round_half_even n (2 ^ (bits - 53)) * 2 ^ (bits - 53).

(** [f"{size/1024/1024:.2f}"].  The first division gives the double
    nearest to [size/1024]; dividing a double by 1024 only lowers its
    exponent, so the quotient is [nearest_double |size| / 2^20] with the
    sign of [size] (a [st_size] is below 2^63, far from overflow).  The
    format prints the double correctly rounded to two decimals, ties to
    even, with [-] before a negative number. *)
Definition format_mb (size : Z) : string :=
  let h := round_half_even (nearest_double (Z.abs size) * 100) (1024 * 1024) in
  (if size <? 0 then "-" else "") +:+ pretty (h / 100) +:+ "." +:+ two_digits (h mod 100).

Definition LOG_FILE : string := "./failures.log".

(** The line of the best-effort branch of [compress_pdf]. *)
Definition best_effort_line (input_path : path) (size : Z) (target_size_mb : float) : string :=
  path_str input_path +:+ " - Compressed to " +:+ format_mb size +:+ " MB (target: "
  +:+ float_str target_size_mb +:+ " MB) (Best Effort)" +:+ String "010"%char "".

(** ** The quality search: [compress_pdf] *)

(** The local variables of [compress_pdf].  [success] is the name the loop
    assigns when an attempt meets the target; it is unbound before. *)
Record search_state := {
  current_quality : Z;
  best_quality_so_far : Z;
  min_size_so_far : number;
  final_success : bool;
  success : option bool
}.

(** How one pass through the body of the [while] loop ends. *)
Inductive control :=
| Continue (st : search_state)    (* falls through or [continue] *)
| Break (st : search_state)       (* [break] *)
| Return (b : bool).              (* [return b] *)

(** How the [while] loop ends. *)
Inductive loop_exit :=
| LoopEnd (st : search_state)     (* condition false, or [break] *)
| LoopReturn (b : bool).          (* [return b] inside the loop *)

(** What a run raises in the caller. *)
Definition run_outcome (r : run_result) : res unit :=
  match r with
  | Exit0 _ => Val tt
  | ExitNonzero stderr _ => Exc (CalledProcessError stderr)
  | CommandNotFound => Exc (FileNotFoundError "No such file or directory: 'ocrmypdf'")
  | OtherFailure msg => Exc (Exception msg)
  end.

(** The file a run leaves at its output path, if any. *)
Definition run_output (r : run_result) : option Z :=
  match r with
  | Exit0 size => Some size
  | ExitNonzero _ partial => partial
  | _ => None
  end.

(** What a run does to the world: it is recorded, time passes, and the
    output, if any, replaces what was at the output path. *)
Definition run_effect (c : invocation) (r : run_result) (w : world) : world :=
  let w1 := tick (add_event (EvRun c r) w) in
  match run_output r with
  | Some size =>
      set_fs <[inv_output c := {| st_isdir := false; st_size := size;
                                  st_mtime := clock w1 |}]> w1
  | None => w1
  end.

Section Compress.

Variable ocrmypdf : tool.

(** [subprocess.run(cmd, check=True, capture_output=True)] *)
Definition subprocess_run (c : invocation) : io unit :=
  fun w =>
    let r := ocrmypdf (trace w) c in
    (run_outcome r, run_effect c r w).

Variables input_path output_path : path.
Variable target_size_mb : float.
Variables max_quality min_quality : Z.

Definition cmd (quality : Z) (out : path) : invocation :=
  {| jpeg_quality := quality; inv_input := input_path; inv_output := out |}.

Definition unlink_if_exists (p : path) : io unit :=
  let* e := exists_ p in
  if e then unlink p else ret tt.

Definition next_quality (st : search_state) : search_state :=
  {| current_quality := current_quality st - 5;
     best_quality_so_far := best_quality_so_far st;
     min_size_so_far := min_size_so_far st;
     final_success := final_success st;
     success := success st |}.

Definition record_size (current_size : Z) (st : search_state) : search_state :=
  if lt_number current_size (min_size_so_far st)
  then {| current_quality := current_quality st;
          best_quality_so_far := current_quality st;
          min_size_so_far := Int current_size;
          final_success := final_success st;
          success := success st |}
  else st.

Definition set_success (st : search_state) : search_state :=
  {| current_quality := current_quality st;
     best_quality_so_far := best_quality_so_far st;
     min_size_so_far := min_size_so_far st;
     final_success := final_success st;
     success := Some true |}.

(** The [try] block inside the [while] loop. *)
Definition attempt_try (temp_output : path) (st : search_state) : io control :=
  subprocess_run (cmd (current_quality st) temp_output) ;;
  let* s := stat temp_output in
  let current_size := st_size s in
  if within_target current_size target_size_mb
  then
    shutil_move temp_output output_path ;;
    ret (Break (set_success st))
  else
    let st1 := record_size current_size st in
    unlink_if_exists temp_output ;;
    ret (Continue (next_quality st1)).

(** Its [except] clauses, in the order of the source. *)
Definition attempt_except (temp_output : path) (st : search_state) (e : exn) : io control :=
  match e with
  | CalledProcessError stderr =>
      let* text := lift (decode stderr) in
      print ("Error processing " +:+ path_str input_path +:+ " with quality "
             +:+ pretty (current_quality st) +:+ ": " +:+ text) ;;
      unlink_if_exists temp_output ;;
      ret (Continue (next_quality st))
  | FileNotFoundError _ =>
      print "Error: ocrmypdf or tesseract not found. Please ensure they are installed and in your PATH." ;;
      ret (Return false)
  | Exception _ =>
      print ("An unexpected error occurred: " +:+ str_exn e) ;;
      ret (Return false)
  end.

(** One pass through the body of the [while] loop. *)
Definition attempt (temp_output : path) (st : search_state) : io control :=
  try_except (attempt_try temp_output st) (attempt_except temp_output st).

Lemma record_size_quality size st :
  current_quality (record_size size st) = current_quality st.
Proof. unfold record_size. destruct (lt_number _ _); reflexivity. Qed.

Lemma attempt_except_continue temp_output st e w st' w' :
  attempt_except temp_output st e w = (Val (Continue st'), w') ->
  current_quality st' = current_quality st - 5.
Proof.
  destruct e; unfold attempt_except, bind, lift, print, ret; try discriminate.
  destruct (decode stderr) as [text|e]; [|discriminate].
  destruct (unlink_if_exists _ _) as [[[]|e] w4]; [|discriminate].
  now intros [= <- _].
Qed.

Lemma attempt_continue temp_output st w st' w' :
  attempt temp_output st w = (Val (Continue st'), w') ->
  current_quality st' = current_quality st - 5.
Proof.
  unfold attempt, try_except, attempt_try, bind at 1.
  destruct (subprocess_run _ w) as [[[]|e] w1]; [|apply attempt_except_continue].
  unfold bind at 1.
  destruct (stat temp_output w1) as [[s|e] w2]; [|apply attempt_except_continue].
  destruct (within_target _ _); unfold bind at 1, ret.
  - destruct (shutil_move _ _ w2) as [[[]|e] w3];
      [discriminate|apply attempt_except_continue].
  - destruct (unlink_if_exists _ w2) as [[[]|e] w3]; [|apply attempt_except_continue].
    intros [= <- _]. simpl. now rewrite record_size_quality.
Qed.

(** [while current_quality >= min_quality: ...] *)
Equations? while_loop (temp_output : path) (st : search_state) (w : world) :
  res loop_exit * world
  by wf (Z.to_nat (current_quality st - min_quality + 1)) lt :=
while_loop temp_output st w with inspect (min_quality <=? current_quality st) := {
  | exist _ false _ := (Val (LoopEnd st), w)
  | exist _ true Hge with inspect (attempt temp_output st w) := {
      | exist _ (Val (Continue st'), w') Hat := while_loop temp_output st' w'
      | exist _ (Val (Break st'), w') _ := (Val (LoopEnd st'), w')
      | exist _ (Val (Return b), w') _ := (Val (LoopReturn b), w')
      | exist _ (Exc e, w') _ := (Exc e, w') } }.
Proof.
  apply attempt_continue in Hat. apply Z.leb_le in Hge. lia.
Qed.

Definition initial_state : search_state :=
  {| current_quality := max_quality;
     best_quality_so_far := -1;
     min_size_so_far := Inf;
     final_success := false;
     success := None |}.

(** The best-effort block after the loop. *)
Definition best_effort (best : Z) : io bool :=
  try_except
    (print ("Target size not met. Generating best possible output with quality "
            +:+ pretty best +:+ ".") ;;
     subprocess_run (cmd best output_path) ;;
     let* s := stat output_path in
     log_write (best_effort_line input_path (st_size s) target_size_mb) ;;
     ret true)
    (fun e =>
       match e with
       | CalledProcessError stderr =>
           let* text := lift (decode stderr) in
           print ("Error generating best effort output for " +:+ path_str input_path
                  +:+ ": " +:+ text) ;;
           ret false
       | _ =>
           print ("An unexpected error occurred during best effort generation: "
                  +:+ str_exn e) ;;
           ret false
       end).

(** The code after the loop. *)
Definition after_loop (st : search_state) : io bool :=
  if (negb (final_success st) && negb (best_quality_so_far st =? -1))%bool
  then best_effort (best_quality_so_far st)
  else if (negb (final_success st) && (best_quality_so_far st =? -1))%bool
  then
    print ("Error: Could not compress " +:+ path_str input_path +:+ " at any quality level.") ;;
    ret false
  else ret (final_success st).

Definition compress_pdf : io bool :=
  let* temp_output := lift (with_suffix output_path ".temp.pdf") in
  let* ex := while_loop temp_output initial_state in
  match ex with
  | LoopReturn b => ret b
  | LoopEnd st => after_loop st
  end.

End Compress.

(** ** One task: [process_pdf] *)

Section Batch.

Variable ocrmypdf : tool.

Definition process_pdf (input_path output_path : path) : io bool :=
  try_except
    (mkdir_parents (parent output_path) ;;
     let* e := exists_ output_path in
     if e
     then
       print ("Skipping " +:+ path_str input_path +:+ " - output already exists") ;;
       ret true
     else
       print ("Processing " +:+ path_str input_path +:+ " -> " +:+ path_str output_path) ;;
       compress_pdf ocrmypdf input_path output_path default_target_size_mb 40 5)
    (fun e =>
       print ("Error processing " +:+ path_str input_path +:+ ": " +:+ str_exn e) ;;
       ret false).

(** ** The batch walk: [find_and_compress_pdfs] *)

(** The test of the [for] loop: the output exists and is not older than
    the input. *)
Definition up_to_date (input_file output_file : path) : io bool :=
  let* e := exists_ output_file in
  if e
  then
    let* so := stat output_file in
    let* si := stat input_file in
    ret (st_mtime si <=? st_mtime so)
  else ret false.

(** The [for input_file in pdf_files] loop.  [futures] holds the
    submitted tasks as the arguments [process_pdf] will get. *)
Fixpoint submit_loop (source_path dest_path : path) (pdf_files : list path)
    (skipped_count : nat) (futures : list (path * path)) :
    io (nat * list (path * path)) :=
  match pdf_files with
  | [] => ret (skipped_count, futures)
  | input_file :: rest =>
      let* relative_path := lift (relative_to input_file source_path) in
      let output_file := joinpath dest_path relative_path in
      let* skip := up_to_date input_file output_file in
      if skip
      then submit_loop source_path dest_path rest (S skipped_count) futures
      else submit_loop source_path dest_path rest skipped_count
             (futures ++ [(input_file, output_file)])
  end.

(** What [future.result()] gives. *)
Inductive future :=
| Returned (result : bool)
| Raised (e : exn).

(** A worker runs one submitted task to its end. *)
Definition run_task (task : path * path) : io future :=
  fun w => match process_pdf (fst task) (snd task) w with
           | (Val b, w') => (Val (Returned b), w')
           | (Exc e, w') => (Val (Raised e), w')
           end.

(** The pool.  The workers are taken to run after the submission loop,
    one task after the other, in the order of submission. *)
Fixpoint run_pool (tasks : list (path * path)) : io (list future) :=
  match tasks with
  | [] => ret []
  | t :: rest =>
      let* f := run_task t in
      let* others := run_pool rest in
      ret (f :: others)
  end.

(** The [for future in as_completed(futures)] loop. *)
Fixpoint as_completed_loop (futures : list future) (total_files : nat)
    (processed_count failed_count : nat) : io (nat * nat) :=
  match futures with
  | [] => ret (processed_count, failed_count)
  | Returned result :: rest =>
      let processed_count' := if result then S processed_count else processed_count in
      let failed_count' := if result then failed_count else S failed_count in
      (if ((processed_count' + failed_count') mod 100 =? 0)%nat
       then print ("Progress: " +:+ pretty (processed_count' + failed_count')%nat +:+ "/"
                   +:+ pretty total_files +:+ " processed")
       else ret tt) ;;
      as_completed_loop rest total_files processed_count' failed_count'
  | Raised e :: rest =>
      print ("Error in future: " +:+ str_exn e) ;;
      as_completed_loop rest total_files processed_count (S failed_count)
  end.

Record summary := {
  total_files : nat;
  processed_count : nat;
  failed_count : nat;
  skipped_count : nat
}.

(** [ThreadPoolExecutor(max_workers=max_workers)]: the constructor
    refuses a worker count that is not positive (ValueError). *)
Definition thread_pool_executor (max_workers : Z) : io unit :=
  if max_workers <=? 0
  then raise (Exception "max_workers must be greater than 0")
  else ret tt.

(** The body of the [with ThreadPoolExecutor] block, to its end. *)
Definition pool_block (source_path dest_path : path) (pdf_files : list path) : io summary :=
  let total := length pdf_files in
  let* submitted := submit_loop source_path dest_path pdf_files 0 [] in
  let* results := run_pool (snd submitted) in
  let* counts := as_completed_loop results total 0 0 in
  ret {| total_files := total; processed_count := fst counts;
         failed_count := snd counts; skipped_count := fst submitted |}.

(** From the glob to the end of the [with ThreadPoolExecutor] block, for a
    pool that has been created. *)
Definition run_batch (source_path dest_path : path) : io summary :=
  let* pdf_files := glob_pdf source_path in
  let total := length pdf_files in
  print ("Found " +:+ pretty total +:+ " PDF files to process") ;;
  pool_block source_path dest_path pdf_files.

(** The lines of the final report. *)
Definition summary_lines (s : summary) : list string :=
  [String "010"%char "Processing complete:";
   "- Total files: " +:+ pretty (total_files s);
   "- Processed successfully: " +:+ pretty (processed_count s);
   "- Failed: " +:+ pretty (failed_count s);
   "- Skipped (already exists): " +:+ pretty (skipped_count s)].

Fixpoint print_all (lines : list string) : io unit :=
  match lines with
  | [] => ret tt
  | l :: rest => print l ;; print_all rest
  end.

Definition find_and_compress_pdfs (source_dir dest_dir : path) (max_workers : Z) : io unit :=
  let source_path := source_dir in
  let dest_path := dest_dir in
  let* found := exists_ source_path in
  if negb found
  then print ("Error: Source directory " +:+ path_str source_dir +:+ " does not exist")
  else
    let* pdf_files := glob_pdf source_path in
    let total_files := length pdf_files in
    print ("Found " +:+ pretty total_files +:+ " PDF files to process") ;;
    thread_pool_executor max_workers ;;
    let* s := pool_block source_path dest_path pdf_files in
    print_all (summary_lines s).

End Batch.

(** * Vocabulary of the properties *)

(** The events of a history that are runs of the tool. *)
Fixpoint runs (evs : list event) : list (invocation * run_result) :=
  match evs with
  | [] => []
  | EvRun c r :: rest => (c, r) :: runs rest
  | _ :: rest => runs rest
  end.

(** [n] levels downwards from [q] in steps of 5. *)
Fixpoint descending (q : Z) (n : nat) : list Z :=
  match n with
  | O => []
  | S n' => q :: descending (q - 5) n'
  end.

(** Number of passes of [while q >= min_quality: ...; q -= 5]. *)
Definition passes (q min_quality : Z) : nat :=
  if min_quality <=? q then Z.to_nat ((q - min_quality) / 5 + 1) else O.

(** What the passes record over oversized outputs [(quality, size)], taken
    in the order of the passes: the first level of the smallest size. *)
Fixpoint fold_best (attempts : list (Z * Z)) (best : Z) (min_size : number) : Z * number :=
  match attempts with
  | [] => (best, min_size)
  | (q, size) :: rest =>
      if lt_number size min_size then fold_best rest q (Int size)
      else fold_best rest best min_size
  end.

(** The events a job can add to the history. *)
Inductive job_event (input_path output_path temp_output : path) : event -> Prop :=
| ev_attempt q r :
    job_event input_path output_path temp_output (EvRun (cmd input_path q temp_output) r)
| ev_discard :
    job_event input_path output_path temp_output (EvUnlink temp_output)
| ev_rename dst :
    dst = output_path \/ dst = output_path ++ [name temp_output] ->
    job_event input_path output_path temp_output (EvMove temp_output dst)
| ev_best_effort q r :
    job_event input_path output_path temp_output (EvRun (cmd input_path q output_path) r).

Definition empty_world : world :=
  {| fs := ∅; failures_log := []; stdout := []; trace := []; clock := 0 |}.

(** A tool whose output is too large at level 40 and fits from 35 on. *)
Definition fits_at_35 : tool :=
  fun _ c => if jpeg_quality c =? 40 then Exit0 2000000 else Exit0 1500000.

Definition always_failing : tool := fun _ _ => ExitNonzero "ocrmypdf: error" None.

(** A tool that always exits with a nonzero status, leaves a partial
    file and writes the byte FF, which is not UTF-8, to its standard
    error. *)
Definition garbled_failure : tool :=
  fun _ _ => ExitNonzero (String "255"%char "") (Some 10).

(** A tool whose outputs are all over the default target, smallest at
    the lowest level. *)
Definition never_small_enough : tool :=
  fun _ c => Exit0 (2000000 + Z.max 0 (jpeg_quality c)).

(** A tool that writes oversized temporary files and fails on any other
    output path. *)
Definition fails_on_final_path : tool :=
  fun _ c =>
    if bool_decide (inv_output c = ["out"; "a.temp.pdf"])
    then Exit0 2000000
    else ExitNonzero "cannot write output" None.

(** A tool whose every output is within the default target. *)
Definition always_small : tool := fun _ _ => Exit0 1000000.

(** A tool that is over the target at level 40 and is not found after. *)
Definition missing_after_40 : tool :=
  fun _ c => if jpeg_quality c =? 40 then Exit0 2000000 else CommandNotFound.

(** A destination whose directory [sub] is taken by a file. *)
Definition blocked_world : world :=
  {| fs := {[ ["dst"; "sub"] := {| st_isdir := false; st_size := 1; st_mtime := 1 |} ]};
     failures_log := []; stdout := []; trace := []; clock := 0 |}.

(** A source tree with three PDF files: the output of [a.pdf] is current,
    the directory for [sub/b.pdf] is taken by a file, [c.pdf] is new. *)
Definition sample_tree : world :=
  let file size mtime := {| st_isdir := false; st_size := size; st_mtime := mtime |} in
  let dir := {| st_isdir := true; st_size := 0; st_mtime := 0 |} in
  {| fs := list_to_map
             [(["src"], dir); (["src"; "a.pdf"], file 10 5);
              (["src"; "sub"], dir); (["src"; "sub"; "b.pdf"], file 10 5);
              (["src"; "c.pdf"], file 10 5); (["src"; "notes.txt"], file 10 5);
              (["dst"], dir); (["dst"; "a.pdf"], file 3 7); (["dst"; "sub"], file 1 1)];
     failures_log := []; stdout := []; trace := []; clock := 10 |}.

(** The output path of an input file: its path relative to the source,
    under the destination. *)
Definition mirrored (source_path dest_path input_file : path) : path :=
  joinpath dest_path (drop (length source_path) input_file).

(** The output of [input_file] exists and is not older than it. *)
Definition is_current (f : gmap path stat_result) (input_file output_file : path) : bool :=
  match lookup_path f output_file, lookup_path f input_file with
  | Some so, Some si => st_mtime si <=? st_mtime so
  | _, _ => false
  end.

(** The runs of a history that write to [p]. *)
Definition runs_onto (p : path) (evs : list event) : list (invocation * run_result) :=
  List.filter (fun cr => bool_decide (inv_output cr.1 = p)) (runs evs).

(** [w'] comes from [w] by creating directories only. *)
Definition only_mkdirs (w w' : world) : Prop :=
  exists evs,
    trace w' = trace w ++ evs /\
    Forall (fun e => exists q, e = EvMkdir q) evs /\
    failures_log w' = failures_log w /\
    forall q, is_Some (fs w !! q) -> fs w' !! q = fs w !! q.


(** A tree whose only PDF file has an output older than itself. *)
Definition stale_tree : world :=
  let file size mtime := {| st_isdir := false; st_size := size; st_mtime := mtime |} in
  let dir := {| st_isdir := true; st_size := 0; st_mtime := 0 |} in
  {| fs := list_to_map
             [(["src"], dir); (["src"; "a.pdf"], file 10 5);
              (["dst"], dir); (["dst"; "a.pdf"], file 3 4)];
     failures_log := []; stdout := []; trace := []; clock := 10 |}.

(** A tree whose only PDF file has a current output. *)
Definition current_tree : world :=
  let file size mtime := {| st_isdir := false; st_size := size; st_mtime := mtime |} in
  let dir := {| st_isdir := true; st_size := 0; st_mtime := 0 |} in
  {| fs := list_to_map
             [(["src"], dir); (["src"; "a.pdf"], file 10 5); (["src"; "notes.txt"], file 1 9);
              (["dst"], dir); (["dst"; "a.pdf"], file 3 7)];
     failures_log := []; stdout := []; trace := []; clock := 10 |}.

(** A run of the tool that belongs to the task [(input, output)]: it reads
    the input and writes the output or its temporary sibling. *)
Definition run_of_task (task : path * path) (cr : invocation * run_result) : Prop :=
  inv_input cr.1 = task.1 /\
  (inv_output cr.1 = task.2 \/ with_suffix task.2 ".temp.pdf" = Val (inv_output cr.1)).

(** * Properties *)

(** ** The temporary file is never the final file *)

Lemma string_app_nil (b : string) : "" +:+ b = b.
Proof. reflexivity. Qed.

Lemma string_app_cons (x : ascii) (a b : string) : String x a +:+ b = String x (a +:+ b).
Proof. reflexivity. Qed.

Lemma string_length_app (a b : string) :
  String.length (a +:+ b) = (String.length a + String.length b)%nat.
Proof.
  induction a as [|c a IH]; [reflexivity|].
  rewrite string_app_cons. simpl. now rewrite IH.
Qed.

Lemma rfind_app (c : ascii) (a b : string) :
  rfind c (a +:+ b) =
  match rfind c b with
  | Some j => Some (String.length a + j)%nat
  | None => rfind c a
  end.
Proof.
  induction a as [|x a IH].
  - rewrite string_app_nil. destruct (rfind c b); reflexivity.
  - rewrite string_app_cons. simpl. rewrite IH. destruct (rfind c b); reflexivity.
Qed.

Lemma substring_split (s : string) (i : nat) :
  (i <= String.length s)%nat ->
  s = substring 0 i s +:+ substring i (String.length s - i) s.
Proof.
  revert i. induction s as [|c s IH]; intros [|i] Hi; simpl in *; try lia.
  - reflexivity.
  - rewrite string_app_nil. f_equal. clear.
    induction s as [|c s IH]; simpl; [reflexivity | now f_equal].
  - rewrite string_app_cons. f_equal. apply IH. lia.
Qed.

Lemma substring_0_length (s : string) (i : nat) :
  (i <= String.length s)%nat -> String.length (substring 0 i s) = i.
Proof.
  revert i. induction s as [|c s IH]; intros [|i] Hi; simpl in *; try lia.
  rewrite IH; lia.
Qed.

Lemma string_app_inv_head (a b c : string) : a +:+ b = a +:+ c -> b = c.
Proof.
  induction a as [|x a IH]; [auto|].
  rewrite !string_app_cons. intros [= H]. auto.
Qed.

Lemma rfind_bound (c : ascii) (s : string) (i : nat) :
  rfind c s = Some i -> (i < String.length s)%nat.
Proof.
  revert i. induction s as [|x s IH]; simpl; intros i; [discriminate|].
  destruct (rfind c s) as [j|].
  - intros [= <-]. specialize (IH j eq_refl). lia.
  - destruct (Ascii.eqb x c); [intros [= <-]; lia | discriminate].
Qed.

Lemma with_suffix_name_changes (nm : string) :
  (if String.eqb (suffix nm) "" then nm +:+ ".temp.pdf"
   else substring 0 (String.length nm - String.length (suffix nm)) nm +:+ ".temp.pdf")
  <> nm.
Proof.
  destruct (String.eqb (suffix nm) "") eqn:Hs.
  - intros H. apply (f_equal String.length) in H.
    rewrite string_length_app in H. simpl in H. lia.
  - unfold suffix in *. destruct (rfind "."%char nm) as [i|] eqn:Hr; [|discriminate].
    destruct ((0 <? i)%nat && (i <? String.length nm - 1)%nat)%bool; [|discriminate].
    pose proof (rfind_bound _ _ _ Hr) as Hi.
    pose proof (substring_split nm i ltac:(lia)) as Hsplit.
    assert (Hlen : String.length (substring i (String.length nm - i) nm)
                   = (String.length nm - i)%nat).
    { apply (f_equal String.length) in Hsplit.
      rewrite string_length_app, substring_0_length in Hsplit; lia. }
    rewrite Hlen. replace (String.length nm - (String.length nm - i))%nat with i by lia.
    intros H. rewrite Hsplit in H at 2. apply string_app_inv_head in H.
    rewrite Hsplit, <- H, rfind_app in Hr. simpl in Hr.
    rewrite substring_0_length in Hr by lia. injection Hr. lia.
Qed.

Lemma with_suffix_fresh (p t : path) :
  with_suffix p ".temp.pdf" = Val t -> t <> p /\ t <> [].
Proof.
  unfold with_suffix. destruct (String.eqb (name p) "") eqn:Hn; [discriminate|].
  intros [= <-]. split.
  - intros H. apply (f_equal (fun l => List.last l "")) in H.
    rewrite last_last in H. now apply with_suffix_name_changes in H.
  - now destruct (removelast p).
Qed.

(** ** One pass of the loop, case by case *)

Lemma lookup_path_cons (f : gmap path stat_result) (p : path) :
  p <> [] -> lookup_path f p = f !! p.
Proof. now destruct p. Qed.

Lemma runs_app (a b : list event) : runs (a ++ b) = runs a ++ runs b.
Proof.
  induction a as [|e a IH]; [reflexivity|].
  destruct e; simpl; now rewrite IH.
Qed.

Lemma record_size_success size st : success (record_size size st) = success st.
Proof. unfold record_size. destruct (lt_number _ _); reflexivity. Qed.

Lemma record_size_final_success size st :
  final_success (record_size size st) = final_success st.
Proof. unfold record_size. destruct (lt_number _ _); reflexivity. Qed.

Section Attempt.

Variable ocrmypdf : tool.
Variables input_path output_path temp_output : path.
Variable target_size_mb : float.
Hypothesis temp_nonempty : temp_output <> [].

Local Abbreviation attempt_at :=
  (attempt ocrmypdf input_path output_path target_size_mb temp_output).
Local Abbreviation command := (cmd input_path).

(** The ways one pass can go, with what it leaves in the history
    ([post] follows the record of the run) and in the file system. *)
Inductive attempt_case (st : search_state) (w : world) :
  run_result -> res control -> list event -> world -> Prop :=
| case_fits size dst w' :
    within_target size target_size_mb = true ->
    dst = output_path \/ dst = output_path ++ [name temp_output] ->
    attempt_case st w (Exit0 size) (Val (Break (set_success st))) [EvMove temp_output dst] w'
| case_fits_refused size w' :
    within_target size target_size_mb = true ->
    attempt_case st w (Exit0 size) (Val (Return false)) [] w'
| case_oversized size w' :
    within_target size target_size_mb = false ->
    fs w' = delete temp_output (fs w) ->
    attempt_case st w (Exit0 size)
      (Val (Continue (next_quality (record_size size st)))) [EvUnlink temp_output] w'
| case_failed stderr partial post w' :
    utf8_valid stderr = true ->
    post = [] \/ post = [EvUnlink temp_output] ->
    fs w' = delete temp_output (fs w) ->
    attempt_case st w (ExitNonzero stderr partial)
      (Val (Continue (next_quality st))) post w'
| case_failed_dir stderr e w' :
    utf8_valid stderr = true ->
    is_dir (fs w) temp_output = true ->
    fs w' = fs w ->
    attempt_case st w (ExitNonzero stderr None) (Exc e) [] w'
| case_undecodable stderr partial e :
    utf8_valid stderr = false ->
    decode stderr = Exc e ->
    attempt_case st w (ExitNonzero stderr partial) (Exc e) []
      (run_effect (command (current_quality st) temp_output)
         (ExitNonzero stderr partial) w)
| case_not_found w' :
    fs w' = fs w ->
    attempt_case st w CommandNotFound (Val (Return false)) [] w'
| case_other msg w' :
    fs w' = fs w ->
    attempt_case st w (OtherFailure msg) (Val (Return false)) [] w'.

Lemma delete_absent (f : gmap path stat_result) (p : path) :
  f !! p = None -> delete p f = f.
Proof.
  intros H. apply map_eq. intros q. destruct (decide (p = q)) as [<-|Hne].
  - now rewrite lookup_delete_eq.
  - now rewrite lookup_delete_ne.
Qed.

Lemma unlink_file (w : world) (s : stat_result) :
  fs w !! temp_output = Some s -> st_isdir s = false ->
  unlink_if_exists temp_output w =
  (Val tt, add_event (EvUnlink temp_output) (set_fs (delete temp_output) w)).
Proof.
  intros Hs Hd. unfold unlink_if_exists, bind, exists_, unlink.
  rewrite lookup_path_cons by assumption. rewrite Hs. simpl.
  rewrite lookup_path_cons by assumption. now rewrite Hs, Hd.
Qed.

Lemma unlink_absent (w : world) :
  fs w !! temp_output = None -> unlink_if_exists temp_output w = (Val tt, w).
Proof.
  intros Hs. unfold unlink_if_exists, bind, exists_, unlink.
  rewrite lookup_path_cons by assumption. now rewrite Hs.
Qed.

Lemma unlink_dir (w : world) (s : stat_result) :
  fs w !! temp_output = Some s -> st_isdir s = true ->
  exists e, unlink_if_exists temp_output w = (Exc e, w).
Proof.
  intros Hs Hd. unfold unlink_if_exists, bind, exists_, unlink.
  rewrite lookup_path_cons by assumption. rewrite Hs. simpl.
  rewrite lookup_path_cons by assumption. rewrite Hs, Hd. eauto.
Qed.

Lemma attempt_spec (st : search_state) (w : world) :
  let c := command (current_quality st) temp_output in
  let r := ocrmypdf (trace w) c in
  exists res w' post,
    attempt_at st w = (res, w') /\
    attempt_case st w r res post w' /\
    trace w' = trace w ++ EvRun c r :: post /\
    failures_log w' = failures_log w.
Proof.
  intros c r. unfold attempt, try_except, attempt_try.
  unfold bind at 1, subprocess_run. fold c. fold r.
  destruct r eqn:Hr; simpl.
  - (* exit status 0 *)
    unfold bind at 1, stat. simpl.
    rewrite lookup_path_cons by assumption. rewrite lookup_insert_eq. simpl.
    destruct (within_target size target_size_mb) eqn:Hfit.
    + unfold bind at 1, shutil_move. simpl.
      rewrite lookup_path_cons by assumption. rewrite lookup_insert_eq.
      match goal with |- context [if ?b then _ else _] => destruct b end; simpl.
      * do 2 eexists. exists []. split; [reflexivity|].
        split; [now constructor | now split].
      * do 3 eexists. split; [reflexivity|]. split; [|split; [|reflexivity]]; cycle 1.
        -- simpl. rewrite <- app_assoc. reflexivity.
        -- apply case_fits; [assumption|].
           match goal with |- context [if ?b then _ else _] => destruct b end; auto.
    + unfold bind at 1.
      erewrite unlink_file;
        [|simpl; apply lookup_insert_eq | reflexivity].
      simpl. do 2 eexists. exists [EvUnlink temp_output]. split; [reflexivity|].
      split; [|split; [|reflexivity]].
      * apply case_oversized; [assumption|]. simpl. apply delete_insert_eq.
      * simpl. now rewrite <- app_assoc.
  - (* nonzero exit status *)
    unfold bind at 1, lift.
    destruct (decode stderr) as [text|e] eqn:Hdec; unfold decode in Hdec;
      destruct (utf8_valid stderr) eqn:Hutf; try discriminate.
    2: { do 2 eexists. exists []. split; [reflexivity|]. split.
         - apply case_undecodable; [assumption|]. unfold decode. now rewrite Hutf.
         - destruct partial; now split. }
    unfold bind at 1, print. simpl. unfold bind at 1.
    destruct partial as [size|]; simpl.
    + erewrite unlink_file;
        [|simpl; apply lookup_insert_eq | reflexivity].
      simpl. do 2 eexists. exists [EvUnlink temp_output]. split; [reflexivity|].
      split; [|split; [|reflexivity]].
      * apply case_failed; [assumption | now right|]. simpl. apply delete_insert_eq.
      * simpl. now rewrite <- app_assoc.
    + destruct (fs w !! temp_output) as [s|] eqn:Hs.
      * destruct (st_isdir s) eqn:Hd.
        -- edestruct unlink_dir as [e ->]; [|exact Hd|]; [exact Hs|].
           simpl. do 2 eexists. exists []. split; [reflexivity|]. split; [|now split].
           apply case_failed_dir; [assumption | | reflexivity]. unfold is_dir.
           rewrite lookup_path_cons by assumption. now rewrite Hs.
        -- erewrite unlink_file; [|exact Hs | exact Hd].
           simpl. do 2 eexists. exists [EvUnlink temp_output]. split; [reflexivity|].
           split; [|split; [|reflexivity]].
           ++ apply case_failed; [assumption | now right | reflexivity].
           ++ simpl. now rewrite <- app_assoc.
      * rewrite unlink_absent by exact Hs. simpl.
        do 2 eexists. exists []. split; [reflexivity|]. split; [|now split].
        apply case_failed; [assumption | now left|]. simpl. symmetry. now apply delete_absent.
  - (* command not found *)
    do 2 eexists. exists []. split; [reflexivity|]. split; [now constructor | now split].
  - (* another exception *)
    do 2 eexists. exists []. split; [reflexivity|]. split; [now constructor | now split].
Qed.

(** Every pass runs the tool once, at the current level and into the
    temporary file, and leaves the log alone. *)
Lemma attempt_events (st : search_state) (w : world) res w' :
  attempt_at st w = (res, w') ->
  exists post,
    trace w' = trace w ++
      EvRun (command (current_quality st) temp_output)
        (ocrmypdf (trace w) (command (current_quality st) temp_output)) :: post /\
    runs post = [] /\
    failures_log w' = failures_log w.
Proof.
  intros H. destruct (attempt_spec st w) as (res' & w1 & post & Heq & Hcase & Htr & Hlog).
  rewrite H in Heq. injection Heq as <- <-.
  exists post. split; [assumption|]. split; [|assumption].
  inversion Hcase; subst; try reflexivity.
  match goal with H : _ \/ _ |- _ => destruct H as [-> | ->] end; reflexivity.
Qed.

Lemma attempt_result (st : search_state) (w : world) res w' :
  attempt_at st w = (res, w') ->
  match res with
  | Val (Continue st') =>
      success st' = success st /\ final_success st' = final_success st
  | Val (Break st') => success st' = Some true
  | Val (Return b) => b = false
  | Exc _ => True
  end.
Proof.
  intros H. destruct (attempt_spec st w) as (res' & w1 & post & Heq & Hcase & _).
  rewrite H in Heq. injection Heq as <- <-.
  inversion Hcase; subst; simpl; auto using record_size_success, record_size_final_success.
Qed.

End Attempt.

(** ** Runs of the loop *)

Lemma while_loop_step ocrmypdf input_path output_path target_size_mb min_quality
    temp_output st w :
  while_loop ocrmypdf input_path output_path target_size_mb min_quality temp_output st w =
  if min_quality <=? current_quality st
  then match attempt ocrmypdf input_path output_path target_size_mb temp_output st w with
       | (Val (Continue st'), w') =>
           while_loop ocrmypdf input_path output_path target_size_mb min_quality
             temp_output st' w'
       | (Val (Break st'), w') => (Val (LoopEnd st'), w')
       | (Val (Return b), w') => (Val (LoopReturn b), w')
       | (Exc e, w') => (Exc e, w')
       end
  else (Val (LoopEnd st), w).
Proof.
  funelim (while_loop ocrmypdf input_path output_path target_size_mb min_quality
             temp_output st w).
  all: try match goal with H : (_ <=? _) = _ |- _ => rewrite H end;
    try match goal with H : attempt _ _ _ _ _ _ _ = _ |- _ => rewrite H end;
    reflexivity.
Qed.

Lemma passes_step (q min_quality : Z) :
  min_quality <= q -> passes q min_quality = S (passes (q - 5) min_quality).
Proof.
  intros H. unfold passes.
  destruct (Z.leb_spec min_quality q); [|lia].
  destruct (Z.leb_spec min_quality (q - 5)).
  - replace (q - min_quality) with ((q - 5 - min_quality) + 1 * 5) by lia.
    rewrite Z.div_add by lia.
    assert (0 <= (q - 5 - min_quality) / 5) by (apply Z.div_pos; lia). lia.
  - rewrite Z.div_small by lia. reflexivity.
Qed.

Lemma passes_stop (q min_quality : Z) : q < min_quality -> passes q min_quality = O.
Proof. intros H. unfold passes. destruct (Z.leb_spec min_quality q); [lia | reflexivity]. Qed.

Lemma fold_best_int attempts best s0 :
  exists b sb,
    fold_best attempts best (Int s0) = (b, Int sb) /\
    sb <= s0 /\
    (In (b, sb) attempts \/ (b = best /\ sb = s0)) /\
    (forall a, In a attempts -> sb <= a.2).
Proof.
  revert best s0. induction attempts as [|[q size] rest IH]; intros best s0; simpl.
  - exists best, s0. repeat split; auto; [lia | intros _ []].
  - destruct (Z.ltb_spec size s0) as [Hlt|Hge].
    + destruct (IH q size) as (b & sb & -> & Hle & Hin & Hall).
      exists b, sb. split; [reflexivity|]. split; [lia|]. split.
      * left. destruct Hin as [?|[-> ->]]; auto.
      * intros a [<-|Ha]; simpl; auto.
    + destruct (IH best s0) as (b & sb & -> & Hle & Hin & Hall).
      exists b, sb. split; [reflexivity|]. split; [lia|]. split.
      * destruct Hin as [?|[-> ->]]; auto.
      * intros a [<-|Ha]; simpl; auto. lia.
Qed.

Lemma fold_best_inf attempts best :
  attempts <> [] ->
  exists b sb,
    fold_best attempts best Inf = (b, Int sb) /\
    In (b, sb) attempts /\
    (forall a, In a attempts -> sb <= a.2).
Proof.
  destruct attempts as [|[q size] rest]; [congruence|]. intros _. simpl.
  destruct (fold_best_int rest q size) as (b & sb & -> & Hle & Hin & Hall).
  exists b, sb. split; [reflexivity|]. split.
  - destruct Hin as [?|[-> ->]]; auto.
  - intros a [<-|Ha]; simpl; auto.
Qed.

Lemma descending_bound (min_quality x : Z) (n : nat) (q : Z) :
  (n <= passes q min_quality)%nat -> In x (descending q n) -> min_quality <= x.
Proof.
  revert q. induction n as [|n IH]; intros q Hn; simpl; [intros []|].
  assert (Hq : min_quality <= q).
  { destruct (Z.le_gt_cases min_quality q) as [?|Hlt]; [assumption|].
    rewrite passes_stop in Hn by lia. lia. }
  intros [<-|Hin]; [assumption|].
  apply (IH (q - 5)); [|assumption].
  rewrite (passes_step _ _ Hq) in Hn. lia.
Qed.

Lemma runs_nil_no_run (evs : list event) c r : runs evs = [] -> ~ In (EvRun c r) evs.
Proof.
  induction evs as [|e evs IH]; simpl; [tauto|].
  destruct e; try discriminate; intros H [Heq|Hin]; try discriminate; now apply IH.
Qed.

Section Loop.

Variable ocrmypdf : tool.
Variables input_path output_path temp_output : path.
Variable target_size_mb : float.
Variable min_quality : Z.
Hypothesis temp_nonempty : temp_output <> [].

Local Abbreviation attempt_at :=
  (attempt ocrmypdf input_path output_path target_size_mb temp_output).
Local Abbreviation loop :=
  (while_loop ocrmypdf input_path output_path target_size_mb min_quality temp_output).
Local Abbreviation command := (cmd input_path).

(** The runs of the [while] loop as a relation: from the locals [st] and
    the world [w] the loop ends as [ex] in the world [w']. *)
Inductive loop_run : search_state -> world -> res loop_exit -> world -> Prop :=
| loop_stop st w :
    current_quality st < min_quality ->
    loop_run st w (Val (LoopEnd st)) w
| loop_continue st w st' w1 ex w2 :
    min_quality <= current_quality st ->
    attempt_at st w = (Val (Continue st'), w1) ->
    loop_run st' w1 ex w2 ->
    loop_run st w ex w2
| loop_break st w st' w1 :
    min_quality <= current_quality st ->
    attempt_at st w = (Val (Break st'), w1) ->
    loop_run st w (Val (LoopEnd st')) w1
| loop_return st w b w1 :
    min_quality <= current_quality st ->
    attempt_at st w = (Val (Return b), w1) ->
    loop_run st w (Val (LoopReturn b)) w1
| loop_raise st w e w1 :
    min_quality <= current_quality st ->
    attempt_at st w = (Exc e, w1) ->
    loop_run st w (Exc e) w1.

(** The loop always ends, and as the relation says. *)
Lemma while_loop_run (st : search_state) (w : world) :
  exists ex w', loop st w = (ex, w') /\ loop_run st w ex w'.
Proof.
  remember (Z.to_nat (current_quality st - min_quality + 1)) as n eqn:Hn.
  revert st w Hn. induction n as [n IH] using lt_wf_ind. intros st w Hn.
  rewrite while_loop_step.
  destruct (Z.leb_spec min_quality (current_quality st)) as [Hge|Hlt].
  - destruct (attempt_at st w) as [[[st'|st'|b]|e] w1] eqn:Hat.
    + pose proof (attempt_continue _ _ _ _ _ _ _ _ _ Hat) as Hq.
      destruct (IH (Z.to_nat (current_quality st' - min_quality + 1)) ltac:(lia)
                  st' w1 eq_refl) as (ex & w2 & Heq & Hrun).
      exists ex, w2. split; [assumption|]. eapply loop_continue; eassumption.
    + do 2 eexists. split; [reflexivity|]. now apply loop_break.
    + do 2 eexists. split; [reflexivity|]. now apply loop_return.
    + do 2 eexists. split; [reflexivity|]. now apply loop_raise.
  - do 2 eexists. split; [reflexivity|]. now apply loop_stop.
Qed.

(** Case analysis of one pass whose result is known. *)
Ltac attempt_inv H :=
  match type of H with
  | attempt _ _ _ _ _ ?st ?w = (?res, ?w1) =>
      let res' := fresh "res" in
      let w' := fresh "w" in
      let post := fresh "post" in
      let Heq := fresh "Heq" in
      let Hcase := fresh "Hcase" in
      let Htr := fresh "Htrace" in
      let Hlog := fresh "Hlog" in
      destruct (attempt_spec ocrmypdf input_path output_path temp_output
                  target_size_mb temp_nonempty st w)
        as (res' & w' & post & Heq & Hcase & Htr & Hlog);
      rewrite H in Heq; injection Heq as <- <-;
      inversion Hcase; subst; clear Hcase
  end.

(** The levels the loop tries: from the current one downwards in steps
    of 5, every level of the range unless a pass ends the loop. *)
Lemma loop_qualities st w ex w' :
  loop_run st w ex w' ->
  exists evs k,
    trace w' = trace w ++ evs /\
    failures_log w' = failures_log w /\
    map fst (runs evs) =
      map (fun q => command q temp_output) (descending (current_quality st) k) /\
    (k <= passes (current_quality st) min_quality)%nat /\
    (min_quality <= current_quality st -> (1 <= k)%nat) /\
    match ex with
    | Val (LoopEnd st') =>
        (success st' = success st /\ k = passes (current_quality st) min_quality)
        \/ success st' = Some true
    | Val (LoopReturn b) => b = false
    | Exc _ => True
    end.
Proof.
  assert (Hlast : forall st w res w1,
    min_quality <= current_quality st ->
    attempt_at st w = (res, w1) ->
    exists evs,
      trace w1 = trace w ++ evs /\ failures_log w1 = failures_log w /\
      map fst (runs evs) =
        map (fun q => command q temp_output) (descending (current_quality st) 1) /\
      (1 <= passes (current_quality st) min_quality)%nat).
  { intros st0 w0 res w1 Hge Hat.
    destruct (attempt_events _ _ _ _ _ temp_nonempty _ _ _ _ Hat)
      as (post & Htr & Hpost & Hlg).
    eexists. split; [eassumption|]. split; [assumption|].
    split; [simpl; now rewrite Hpost|]. rewrite (passes_step _ _ Hge). lia. }
  induction 1 as [st w Hlt | st w st' w1 ex w2 Hge Hat Hrun IH
                 | st w st' w1 Hge Hat | st w b w1 Hge Hat | st w e w1 Hge Hat].
  - exists [], O. rewrite app_nil_r, passes_stop by assumption.
    repeat split; auto; lia.
  - destruct IH as (evs & k & Htr & Hlg & Hq & Hk & Hone & Hex).
    pose proof (attempt_continue _ _ _ _ _ _ _ _ _ Hat) as Hcq.
    rewrite Hcq in *. rewrite (passes_step _ _ Hge).
    destruct (attempt_result _ _ _ _ _ temp_nonempty _ _ _ _ Hat) as [Hsucc _].
    destruct (attempt_events _ _ _ _ _ temp_nonempty _ _ _ _ Hat)
      as (post & Hw1 & Hpost & Hlg1).
    exists (EvRun (command (current_quality st) temp_output)
              (ocrmypdf (trace w) (command (current_quality st) temp_output))
            :: post ++ evs), (S k).
    split; [rewrite Htr, Hw1, <- app_assoc; reflexivity|].
    split; [congruence|].
    split; [simpl; rewrite runs_app, Hpost; simpl; now rewrite Hq|].
    split; [lia|]. split; [lia|].
    destruct ex as [[st''|b]|e]; auto.
    rewrite Hsucc in Hex. destruct Hex as [[? ->]|?]; auto.
  - destruct (Hlast _ _ _ _ Hge Hat) as (evs & ? & ? & ? & ?).
    exists evs, 1%nat. repeat split; auto.
    right. exact (attempt_result _ _ _ _ _ temp_nonempty _ _ _ _ Hat).
  - destruct (Hlast _ _ _ _ Hge Hat) as (evs & ? & ? & ? & ?).
    exists evs, 1%nat. repeat split; auto.
    exact (attempt_result _ _ _ _ _ temp_nonempty _ _ _ _ Hat).
  - destruct (Hlast _ _ _ _ Hge Hat) as (evs & ? & ? & ? & ?).
    exists evs, 1%nat. repeat split; auto.
Qed.

Lemma is_dir_deleted (f : gmap path stat_result) :
  is_dir (delete temp_output f) temp_output = false.
Proof.
  unfold is_dir. rewrite lookup_path_cons by assumption.
  now rewrite lookup_delete_eq.
Qed.

(** The loop stops short of its range only on a pass whose run is the
    last one, and that run was within the target (the loop is left by
    [break], or by [return False] when the move fails), was answered
    command-not-found or another failure ([return False]), or exited with
    a nonzero status in a pass whose handler raised: on a standard error
    that is not UTF-8, or on a directory at the temporary path, which
    only the first pass can meet. *)
Lemma loop_cut_short st w ex w' :
  loop_run st w ex w' ->
  exists evs k,
    trace w' = trace w ++ evs /\
    map fst (runs evs) =
      map (fun q => command q temp_output) (descending (current_quality st) k) /\
    (k <= passes (current_quality st) min_quality)%nat /\
    (min_quality <= current_quality st -> (1 <= k)%nat) /\
    ((k < passes (current_quality st) min_quality)%nat ->
     exists c r,
       last (runs evs) = Some (c, r) /\
       match r with
       | Exit0 size =>
           within_target size target_size_mb = true /\
           ((exists st', ex = Val (LoopEnd st') /\ success st' = Some true) \/
            ex = Val (LoopReturn false))
       | ExitNonzero stderr _ =>
           (exists e, ex = Exc e) /\
           (utf8_valid stderr = false \/ is_dir (fs w) temp_output = true)
       | CommandNotFound | OtherFailure _ => ex = Val (LoopReturn false)
       end).
Proof.
  assert (Hlast : forall st w res w1,
    min_quality <= current_quality st ->
    attempt_at st w = (res, w1) ->
    exists evs c r,
      trace w1 = trace w ++ evs /\
      map fst (runs evs) =
        map (fun q => command q temp_output) (descending (current_quality st) 1) /\
      (1 <= passes (current_quality st) min_quality)%nat /\
      last (runs evs) = Some (c, r) /\
      ocrmypdf (trace w) (command (current_quality st) temp_output) = r).
  { intros st0 w0 res w1 Hge Hat.
    destruct (attempt_events _ _ _ _ _ temp_nonempty _ _ _ _ Hat)
      as (post & Htr & Hpost & Hlg).
    eexists. do 2 eexists. split; [eassumption|].
    split; [simpl; now rewrite Hpost|].
    split; [rewrite (passes_step _ _ Hge); lia|].
    split; [simpl; rewrite Hpost; reflexivity | reflexivity]. }
  induction 1 as [st w Hlt | st w st' w1 ex w2 Hge Hat Hrun IH
                 | st w st' w1 Hge Hat | st w b w1 Hge Hat | st w e w1 Hge Hat].
  - exists [], O. rewrite app_nil_r, passes_stop by assumption.
    repeat split; auto; lia.
  - destruct IH as (evs & k & Htr & Hq & Hk & Hone & Hcut).
    pose proof (attempt_continue _ _ _ _ _ _ _ _ _ Hat) as Hcq.
    rewrite Hcq in *. rewrite (passes_step _ _ Hge).
    destruct (attempt_events _ _ _ _ _ temp_nonempty _ _ _ _ Hat)
      as (post & Hw1 & Hpost & Hlg1).
    exists (EvRun (command (current_quality st) temp_output)
              (ocrmypdf (trace w) (command (current_quality st) temp_output))
            :: post ++ evs), (S k).
    split; [rewrite Htr, Hw1, <- app_assoc; reflexivity|].
    split; [simpl; rewrite runs_app, Hpost; simpl; now rewrite Hq|].
    split; [lia|]. split; [lia|].
    intros Hlt. destruct Hcut as (c & r & Hl & Hr); [lia|].
    exists c, r. split; [simpl; rewrite runs_app, Hpost; simpl; now rewrite last_cons, Hl|].
    destruct r as [size|stderr partial| |msg]; try exact Hr.
    destruct Hr as [He [Hutf|Hdir]]; [auto|].
    exfalso. attempt_inv Hat;
      match goal with H : fs _ = delete _ _ |- _ => rewrite H in Hdir end;
      rewrite is_dir_deleted in Hdir; discriminate.
  - destruct (Hlast _ _ _ _ Hge Hat) as (evs & c & r & ? & ? & ? & Hl & Hr).
    exists evs, 1%nat. repeat split; auto. intros _. exists c, r. split; [assumption|].
    attempt_inv Hat;
      match goal with H : _ = ocrmypdf _ _ |- _ => rewrite <- H end.
    split; [assumption|]. left. eauto.
  - destruct (Hlast _ _ _ _ Hge Hat) as (evs & c & r & ? & ? & ? & Hl & Hr).
    exists evs, 1%nat. repeat split; auto. intros _. exists c, r. split; [assumption|].
    attempt_inv Hat;
      match goal with H : _ = ocrmypdf _ _ |- _ => rewrite <- H end; auto.
  - destruct (Hlast _ _ _ _ Hge Hat) as (evs & c & r & ? & ? & ? & Hl & Hr).
    exists evs, 1%nat. repeat split; auto. intros _. exists c, r. split; [assumption|].
    attempt_inv Hat;
      match goal with H : _ = ocrmypdf _ _ |- _ => rewrite <- H end; eauto.
Qed.



(** When every run succeeds with an output over the target the loop
    goes through all its passes and keeps the first level of the
    smallest size. *)
Lemma loop_all_oversized st w ex w' :
  (forall tr c, exists size,
      ocrmypdf tr c = Exit0 size /\
      (inv_output c = temp_output -> within_target size target_size_mb = false)) ->
  temp_output <> output_path ->
  loop_run st w ex w' ->
  exists st' attempts evs,
    ex = Val (LoopEnd st') /\
    final_success st' = final_success st /\
    trace w' = trace w ++ evs /\
    runs evs = map (fun a => (command a.1 temp_output, Exit0 a.2)) attempts /\
    map fst attempts = descending (current_quality st) (passes (current_quality st) min_quality) /\
    (best_quality_so_far st', min_size_so_far st') =
      fold_best attempts (best_quality_so_far st) (min_size_so_far st) /\
    fs w' !! output_path = fs w !! output_path.
Proof.
  intros Hover Hne.
  induction 1 as [st w Hlt | st w st' w1 ex w2 Hge Hat Hrun IH
                 | st w st' w1 Hge Hat | st w b w1 Hge Hat | st w e w1 Hge Hat].
  - exists st, [], []. rewrite app_nil_r, passes_stop by assumption. auto 8.
  - destruct (Hover (trace w) (command (current_quality st) temp_output))
      as (size & Hr & Hbig). specialize (Hbig eq_refl).
    attempt_inv Hat; try congruence.
    match goal with H : Exit0 _ = _ |- _ => rewrite Hr in H; injection H as <- end.
    match goal with H : fs _ = _ |- _ => rename H into Hfs end.
    destruct IH as (st'' & attempts & evs & -> & Hf & Htr & Hruns & Hq & Hbest & Hout).
    match type of Hr with _ = Exit0 ?sz =>
      exists st'', ((current_quality st, sz) :: attempts),
        (EvRun (command (current_quality st) temp_output) (Exit0 sz)
         :: EvUnlink temp_output :: evs)
    end.
    split; [reflexivity|].
    split; [now rewrite Hf; simpl; rewrite record_size_final_success|].
    split; [rewrite Htr, Htrace, Hr, <- app_assoc; reflexivity|].
    split; [simpl; now rewrite Hruns|].
    split.
    { simpl. rewrite Hq. simpl. rewrite record_size_quality.
      now rewrite (passes_step _ _ Hge). }
    split.
    { rewrite Hbest. simpl. unfold record_size.
      destruct (lt_number _ (min_size_so_far st)); reflexivity. }
    rewrite Hout, Hfs, lookup_delete_ne by assumption. reflexivity.
  - destruct (Hover (trace w) (command (current_quality st) temp_output))
      as (size & Hr & Hbig). specialize (Hbig eq_refl).
    attempt_inv Hat; congruence.
  - destruct (Hover (trace w) (command (current_quality st) temp_output))
      as (size & Hr & Hbig). specialize (Hbig eq_refl).
    attempt_inv Hat; congruence.
  - destruct (Hover (trace w) (command (current_quality st) temp_output))
      as (size & Hr & Hbig). specialize (Hbig eq_refl).
    attempt_inv Hat; congruence.
Qed.

(** What one pass adds to the history, whatever the tool answers. *)
Lemma attempt_history st w res w1 :
  attempt_at st w = (res, w1) ->
  let c := command (current_quality st) temp_output in
  let r := ocrmypdf (trace w) c in
  exists post,
    trace w1 = trace w ++ EvRun c r :: post /\
    runs post = [] /\
    Forall (job_event input_path output_path temp_output) (EvRun c r :: post) /\
    (r = CommandNotFound -> res = Val (Return false) /\ post = []) /\
    ((forall size, r = Exit0 size -> within_target size target_size_mb = false) ->
     forall src dst, ~ In (EvMove src dst) post).
Proof.
  intros Hat c r. subst c r.
  destruct (attempt_spec ocrmypdf input_path output_path temp_output
              target_size_mb temp_nonempty st w)
    as (res' & w' & post & Heq & Hcase & Htr & Hlog).
  rewrite Hat in Heq. injection Heq as <- <-.
  exists post. split; [assumption|].
  inversion Hcase; subst;
    repeat match goal with H : _ \/ _ |- _ => destruct H as [->| ->] end;
    (split; [reflexivity|]);
    (split; [repeat constructor; auto|]);
    (split; [intros; try discriminate; auto|]);
    intros Hbig src dst; simpl; try tauto;
    try (intros [Hin|[]]; discriminate).
  all: match goal with
       | H : within_target ?s _ = true |- _ =>
           rewrite (Hbig s eq_refl) in H; discriminate
       end.
Qed.

(** The history of a run of the loop. *)
Lemma loop_history st w ex w' :
  loop_run st w ex w' ->
  exists evs,
    trace w' = trace w ++ evs /\
    Forall (job_event input_path output_path temp_output) evs /\
    Forall (fun cr => inv_output cr.1 = temp_output) (runs evs) /\
    (forall c, In (EvRun c CommandNotFound) evs ->
               ex = Val (LoopReturn false) /\ last evs = Some (EvRun c CommandNotFound)) /\
    ((forall tr c size, ocrmypdf tr c = Exit0 size -> inv_output c = temp_output ->
                        within_target size target_size_mb = false) ->
     forall src dst, ~ In (EvMove src dst) evs).
Proof.
  assert (Hone : forall st w res w1,
    attempt_at st w = (res, w1) ->
    exists evs,
      trace w1 = trace w ++ evs /\
      Forall (job_event input_path output_path temp_output) evs /\
      Forall (fun cr => inv_output cr.1 = temp_output) (runs evs) /\
      (forall c, In (EvRun c CommandNotFound) evs ->
                 res = Val (Return false) /\ last evs = Some (EvRun c CommandNotFound)) /\
      ((forall tr c size, ocrmypdf tr c = Exit0 size -> inv_output c = temp_output ->
                          within_target size target_size_mb = false) ->
       forall src dst, ~ In (EvMove src dst) evs)).
  { intros st0 w0 res w1 Hat.
    destruct (attempt_history _ _ _ _ Hat) as (post & Htr & Hpost & Hall & Hnf & Hmv).
    eexists. split; [eassumption|]. split; [assumption|]. split; [|split].
    - simpl. rewrite Hpost. repeat constructor.
    - intros c [Heq|Hin]; [|now apply runs_nil_no_run in Hin].
      injection Heq as <- Hr. destruct (Hnf Hr) as [-> ->].
      split; [reflexivity|]. simpl. now rewrite Hr.
    - intros Hbig src dst [Heq|Hin]; [discriminate|].
      revert Hin. apply Hmv. intros size Hr. eapply Hbig; [exact Hr | reflexivity]. }
  induction 1 as [st w Hlt | st w st' w1 ex w2 Hge Hat Hrun IH
                 | st w st' w1 Hge Hat | st w b w1 Hge Hat | st w e w1 Hge Hat].
  - exists []. rewrite app_nil_r. split; [reflexivity|].
    split; [constructor|]. split; [constructor|].
    split; [intros c []|intros _ src dst []].
  - destruct (Hone _ _ _ _ Hat) as (evs1 & Htr1 & Hall1 & Hruns1 & Hnf1 & Hmv1).
    destruct IH as (evs2 & Htr2 & Hall2 & Hruns2 & Hnf2 & Hmv2).
    exists (evs1 ++ evs2). split; [rewrite Htr2, Htr1, <- app_assoc; reflexivity|].
    split; [now apply Forall_app|].
    split; [rewrite runs_app; now apply Forall_app|].
    split.
    + intros c Hin. apply in_app_or in Hin as [Hin|Hin].
      * apply Hnf1 in Hin as [? _]. discriminate.
      * destruct (Hnf2 c Hin) as [-> Hlast]. split; [reflexivity|].
        rewrite last_app, Hlast. reflexivity.
    + intros Hbig src dst Hin. apply in_app_or in Hin as [Hin|Hin].
      * now apply (Hmv1 Hbig src dst).
      * now apply (Hmv2 Hbig src dst).
  - destruct (Hone _ _ _ _ Hat) as (evs1 & Htr1 & Hall1 & Hruns1 & Hnf1 & Hmv1).
    exists evs1. repeat split; auto; apply Hnf1 in H as [? ?]; discriminate || assumption.
  - destruct (Hone _ _ _ _ Hat) as (evs1 & Htr1 & Hall1 & Hruns1 & Hnf1 & Hmv1).
    exists evs1. repeat split; auto; apply Hnf1 in H as [Heq ?];
      try assumption; injection Heq as ->; reflexivity.
  - destruct (Hone _ _ _ _ Hat) as (evs1 & Htr1 & Hall1 & Hruns1 & Hnf1 & Hmv1).
    exists evs1. repeat split; auto; apply Hnf1 in H as [? ?]; discriminate || assumption.
Qed.

End Loop.

(** ** The levels of the default search *)

Lemma runs_of_commands (l : list (invocation * run_result)) (input_path temp_output : path)
    (qs : list Z) :
  map fst l = map (fun q => cmd input_path q temp_output) qs ->
  map (fun cr => jpeg_quality cr.1) l = qs /\
  Forall (fun cr => inv_input cr.1 = input_path /\ inv_output cr.1 = temp_output) l.
Proof.
  revert qs. induction l as [|[c r] l IH]; intros [|q qs]; simpl; try discriminate.
  - intros _. split; [reflexivity | constructor].
  - intros [= -> Hrest]. destruct (IH qs Hrest) as [Hq Hall].
    split; [simpl; now rewrite Hq|]. constructor; [now split | assumption].
Qed.

(** C7: with max_quality=40, min_quality=5 and the step 5 of the code, the
    runs of the tool made by the search loop are at the JPEG quality
    levels 40, 35, 30, 25, 20, 15, 10, 5 in this order, each reading the
    input and writing the temporary file.  The list is cut short only by
    its last run: one whose output is within the target (early success:
    the loop is left by [break], or by [return False] when the move of the
    file fails), or one that fails fatally (command not found or another
    exception: [return False]; a nonzero exit whose handler raises, on a
    standard error that is not UTF-8 or on a directory at the temporary
    path: the exception escapes).  An oversized output and a handled
    nonzero exit never end the loop. *)
Theorem default_levels_attempted (ocrmypdf : tool) (input_path output_path temp_output : path)
    (target_size_mb : float) (w : world) :
  with_suffix output_path ".temp.pdf" = Val temp_output ->
  let run := while_loop ocrmypdf input_path output_path target_size_mb 5 temp_output
               (initial_state 40) w in
  exists evs k,
    trace run.2 = trace w ++ evs /\
    (1 <= k <= 8)%nat /\
    map (fun cr => jpeg_quality cr.1) (runs evs) = firstn k [40; 35; 30; 25; 20; 15; 10; 5] /\
    Forall (fun cr => inv_input cr.1 = input_path /\ inv_output cr.1 = temp_output)
      (runs evs) /\
    ((k < 8)%nat ->
     exists c r,
       last (runs evs) = Some (c, r) /\
       match r with
       | Exit0 size =>
           within_target size target_size_mb = true /\
           ((exists st, run.1 = Val (LoopEnd st) /\ success st = Some true) \/
            run.1 = Val (LoopReturn false))
       | ExitNonzero stderr _ =>
           (exists e, run.1 = Exc e) /\
           (utf8_valid stderr = false \/ is_dir (fs w) temp_output = true)
       | CommandNotFound | OtherFailure _ => run.1 = Val (LoopReturn false)
       end).
Proof.
  intros Htemp run. apply with_suffix_fresh in Htemp as [_ Hne].
  destruct (while_loop_run ocrmypdf input_path output_path temp_output target_size_mb 5
              (initial_state 40) w) as (ex & w' & Heq & Hrun).
  subst run. rewrite Heq. simpl.
  destruct (loop_cut_short _ _ _ _ _ _ Hne _ _ _ _ Hrun)
    as (evs & k & Htr & Hq & Hk & Hone & Hcut).
  simpl in Hq, Hk, Hone, Hcut. change (passes 40 5) with 8%nat in *.
  apply runs_of_commands in Hq as [Hq Hall].
  exists evs, k. split; [assumption|]. split; [lia|]. split; [|split; assumption].
  rewrite Hq. do 9 (destruct k as [|k]; [reflexivity|]). lia.
Qed.

Lemma default_levels_attempted_witness :
  let run := while_loop fits_at_35 ["in"; "a.pdf"] ["out"; "a.pdf"] default_target_size_mb 5
               ["out"; "a.temp.pdf"] (initial_state 40) empty_world in
  exists evs k,
    trace run.2 = trace empty_world ++ evs /\
    (1 <= k <= 8)%nat /\
    map (fun cr => jpeg_quality cr.1) (runs evs) = firstn k [40; 35; 30; 25; 20; 15; 10; 5] /\
    Forall (fun cr => inv_input cr.1 = ["in"; "a.pdf"] /\
                      inv_output cr.1 = ["out"; "a.temp.pdf"])
      (runs evs) /\
    ((k < 8)%nat ->
     exists c r,
       last (runs evs) = Some (c, r) /\
       match r with
       | Exit0 size =>
           within_target size default_target_size_mb = true /\
           ((exists st, run.1 = Val (LoopEnd st) /\ success st = Some true) \/
            run.1 = Val (LoopReturn false))
       | ExitNonzero stderr _ =>
           (exists e, run.1 = Exc e) /\
           (utf8_valid stderr = false \/
            is_dir (fs empty_world) ["out"; "a.temp.pdf"] = true)
       | CommandNotFound | OtherFailure _ => run.1 = Val (LoopReturn false)
       end).
Proof.
  apply (default_levels_attempted fits_at_35 ["in"; "a.pdf"] ["out"; "a.pdf"]
           ["out"; "a.temp.pdf"] default_target_size_mb empty_world).
  reflexivity.
Defined.

(** ** Every run fails *)

(** The decoder on well-formed text and on the ill-formed sequences: a
    stray continuation byte, an overlong form, a surrogate, a truncated
    sequence, a code point above U+10FFFF. *)
Example utf8_valid_samples :
  utf8_valid "ocrmypdf: error" = true /\
  utf8_valid (String "195" (String "169" "")) = true /\
  utf8_valid (String "226" (String "130" (String "172" ""))) = true /\
  utf8_valid (String "240" (String "159" (String "152" (String "128" "")))) = true /\
  utf8_valid (String "128" "") = false /\
  utf8_valid (String "255" "") = false /\
  utf8_valid (String "192" (String "128" "")) = false /\
  utf8_valid (String "237" (String "160" (String "128" ""))) = false /\
  utf8_valid (String "226" (String "130" "")) = false /\
  utf8_valid (String "244" (String "144" (String "128" (String "128" "")))) = false.
Proof. vm_compute. repeat split. Qed.




(** ** Every output is over the target *)

Lemma with_suffix_output_nonempty (p t : path) :
  with_suffix p ".temp.pdf" = Val t -> p <> [].
Proof. intros H ->. discriminate. Qed.

(** The best-effort block when its run of the tool succeeds. *)
Lemma best_effort_completed (ocrmypdf : tool) (input_path output_path : path)
    (target_size_mb : float) (best final_size : Z) (w : world) :
  output_path <> [] ->
  ocrmypdf (trace w) (cmd input_path best output_path) = Exit0 final_size ->
  exists w',
    best_effort ocrmypdf input_path output_path target_size_mb best w = (Val true, w') /\
    trace w' = trace w ++ [EvRun (cmd input_path best output_path) (Exit0 final_size)] /\
    failures_log w' =
      failures_log w ++ [best_effort_line input_path final_size target_size_mb] /\
    st_size <$> fs w' !! output_path = Some final_size.
Proof.
  intros Hne Hr.
  unfold best_effort, try_except, bind, print, subprocess_run, stat, log_write, ret.
  simpl. rewrite Hr. simpl.
  rewrite lookup_path_cons by assumption. rewrite lookup_insert_eq. simpl.
  eexists. split; [reflexivity|]. simpl. repeat split. now rewrite lookup_insert_eq.
Qed.

(** *** The size in the log line *)

Lemma string_app_assoc (a b c : string) : (a +:+ b) +:+ c = a +:+ (b +:+ c).
Proof.
  induction a as [|x a IH]; [reflexivity|].
  rewrite !string_app_cons. now rewrite IH.
Qed.

(** [round_half_even] gives a nearest integer to the quotient, the even
    one of the two when the quotient lies half way. *)
Lemma round_half_even_nearest (num den : Z) :
  0 < den ->
  2 * Z.abs (num - den * round_half_even num den) <= den /\
  (2 * Z.abs (num - den * round_half_even num den) = den ->
   Z.even (round_half_even num den) = true) /\
  (0 <= num -> 0 <= round_half_even num den).
Proof.
  intros Hden. unfold round_half_even.
  pose proof (Z.div_mod num den ltac:(lia)) as Hdm.
  pose proof (Z.mod_pos_bound num den Hden) as Hr.
  assert (Hq : 0 <= num -> 0 <= num / den) by (intros; apply Z.div_pos; lia).
  set (q := num / den) in *. set (r := num mod den) in *.
  replace (den * (q + 1)) with (den * q + den) by ring.
  destruct (Z.ltb_spec (2 * r) den); [|destruct (Z.ltb_spec den (2 * r));
                                       [|destruct (Z.even q) eqn:He]].
  - split; [lia|]. split; [lia|]. assumption.
  - replace (den * (q + 1)) with (den * q + den) by ring.
    split; [lia|]. split; [lia|]. intros H'. specialize (Hq H'). lia.
  - split; [lia|]. split; [auto|]. assumption.
  - replace (den * (q + 1)) with (den * q + den) by ring.
    split; [lia|]. split.
    + intros _. change (q + 1) with (Z.succ q).
      now rewrite Z.even_succ, <- Z.negb_even, He.
    + intros H'. specialize (Hq H'). lia.
Qed.

Lemma nearest_double_exact (n : Z) : 0 <= n < 2 ^ 53 -> nearest_double n = n.
Proof.
  intros [H0 H]. unfold nearest_double.
  destruct (Z.leb_spec (Z.log2 n + 1) 53) as [_|Hbits]; [reflexivity|].
  exfalso. destruct (Z.eq_dec n 0) as [->|Hn]; [simpl in Hbits; lia|].
  apply Z.log2_lt_pow2 in H; lia.
Qed.

(** [nearest_double n] is [n] rounded to the multiple of [2^e] nearest to
    it, the even one at a tie, where [e] counts the bits of [n] beyond
    the 53 of a double. *)
Lemma nearest_double_nearest (n : Z) :
  0 <= n ->
  let e := Z.max 0 (Z.log2 n - 52) in
  exists d,
    nearest_double n = d * 2 ^ e /\
    2 * Z.abs (n - d * 2 ^ e) <= 2 ^ e /\
    (2 * Z.abs (n - d * 2 ^ e) = 2 ^ e -> Z.even d = true).
Proof.
  intros Hn e. subst e. unfold nearest_double.
  destruct (Z.leb_spec (Z.log2 n + 1) 53) as [Hbits|Hbits].
  - rewrite Z.max_l by lia. exists n. change (2 ^ 0) with 1.
    rewrite Z.mul_1_r. split; [reflexivity|]. split; lia.
  - rewrite Z.max_r by lia.
    replace (Z.log2 n + 1 - 53) with (Z.log2 n - 52) by lia.
    assert (Hpow : 0 < 2 ^ (Z.log2 n - 52)) by (apply Z.pow_pos_nonneg; lia).
    destruct (round_half_even_nearest n _ Hpow) as (Hnear & Htie & _).
    exists (round_half_even n (2 ^ (Z.log2 n - 52))).
    rewrite (Z.mul_comm (round_half_even _ _)). auto.
Qed.

Lemma nearest_double_nonneg (n : Z) : 0 <= n -> 0 <= nearest_double n.
Proof.
  intros H. unfold nearest_double.
  destruct (Z.leb_spec (Z.log2 n + 1) 53) as [_|Hbits]; [assumption|].
  assert (Hpow : 0 < 2 ^ (Z.log2 n + 1 - 53)) by (apply Z.pow_pos_nonneg; lia).
  destruct (round_half_even_nearest n _ Hpow) as (_ & _ & Hpos).
  specialize (Hpos H). nia.
Qed.

Lemma two_digits_decimal (d : Z) :
  0 <= d < 100 -> two_digits d = pretty (d / 10) +:+ pretty (d mod 10).
Proof.
  intros Hd.
  assert (Hall : forallb (fun n => String.eqb (two_digits (Z.of_nat n))
                                     (pretty (Z.of_nat n / 10) +:+ pretty (Z.of_nat n mod 10)))
                   (seq 0 100) = true) by (vm_compute; reflexivity).
  rewrite forallb_forall in Hall. specialize (Hall (Z.to_nat d)).
  rewrite Z2Nat.id in Hall by lia. apply String.eqb_eq, Hall, in_seq. lia.
Qed.

(** What [format_mb] prints.  The double is [d * 2^e / 2^20], where
    [d * 2^e] is the size rounded to 53 significant bits; the text is the
    sign, then the hundredths [h] nearest to the double (ties to even) as
    integer part, point and two digits. *)
Lemma format_mb_decimal (size : Z) :
  let e := Z.max 0 (Z.log2 (Z.abs size) - 52) in
  exists d h,
    2 * Z.abs (Z.abs size - d * 2 ^ e) <= 2 ^ e /\
    (2 * Z.abs (Z.abs size - d * 2 ^ e) = 2 ^ e -> Z.even d = true) /\
    0 <= h /\
    2 * Z.abs (100 * (d * 2 ^ e) - 1048576 * h) <= 1048576 /\
    (2 * Z.abs (100 * (d * 2 ^ e) - 1048576 * h) = 1048576 -> Z.even h = true) /\
    format_mb size =
      (if size <? 0 then "-" else "") +:+ pretty (h / 100) +:+ "." +:+
      pretty (h mod 100 / 10) +:+ pretty (h mod 10).
Proof.
  intros e.
  destruct (nearest_double_nearest (Z.abs size) (Z.abs_nonneg size))
    as (d & HD & Hdnear & Hdtie).
  fold e in HD, Hdnear, Hdtie.
  pose proof (nearest_double_nonneg (Z.abs size) (Z.abs_nonneg size)) as Hpos.
  unfold format_mb. rewrite HD in *.
  set (h := round_half_even (d * 2 ^ e * 100) (1024 * 1024)).
  destruct (round_half_even_nearest (d * 2 ^ e * 100) (1024 * 1024) ltac:(lia))
    as (Hnear & Htie & Hh).
  fold h in Hnear, Htie, Hh.
  exists d, h. split; [assumption|]. split; [assumption|].
  split; [apply Hh; lia|].
  rewrite (Z.mul_comm 100). change 1048576 with (1024 * 1024).
  split; [assumption|]. split; [assumption|].
  rewrite two_digits_decimal by (apply Z.mod_pos_bound; lia).
  rewrite (Z.mod_mod_divide h 100 10) by (exists 10; reflexivity).
  reflexivity.
Qed.

(** C4 (the claim as stated fails): every attempt at every level succeeds
    with an output over the target, and no best-effort output follows.
    In the first job the extra run, onto the final path, exits with a
    nonzero status: the handler returns False, nothing is logged and there
    is no output.  In the second job the range is the single level -1,
    the value the code keeps for no recorded level: the code after the
    loop takes the level as missing, makes no extra run and returns
    False. *)
Lemma all_oversized_without_best_effort :
  (let run := compress_pdf fails_on_final_path ["in"; "a.pdf"] ["out"; "a.pdf"]
                default_target_size_mb 40 5 empty_world in
   map (fun cr => (jpeg_quality cr.1, cr.2)) (runs (trace run.2)) =
     [(40, Exit0 2000000); (35, Exit0 2000000); (30, Exit0 2000000); (25, Exit0 2000000);
      (20, Exit0 2000000); (15, Exit0 2000000); (10, Exit0 2000000); (5, Exit0 2000000);
      (40, ExitNonzero "cannot write output" None)] /\
   within_target 2000000 default_target_size_mb = false /\
   run.1 = Val false /\
   failures_log run.2 = [] /\
   fs run.2 !! ["out"; "a.pdf"] = None) /\
  (let run := compress_pdf never_small_enough ["in"; "a.pdf"] ["out"; "a.pdf"]
                default_target_size_mb (-1) (-1) empty_world in
   runs (trace run.2) =
     [({| jpeg_quality := -1; inv_input := ["in"; "a.pdf"];
          inv_output := ["out"; "a.temp.pdf"] |}, Exit0 2000000)] /\
   run.1 = Val false /\
   failures_log run.2 = [] /\
   fs run.2 !! ["out"; "a.pdf"] = None).
Proof. vm_compute. repeat split. Qed.

(** C4, amended: for a job whose output path has a file name and whose
    range of levels is not empty and does not contain -1, when every run
    of the tool succeeds (the extra one included) and every output of a
    pass is over the target, [compress_pdf] tries every level of the
    range, then runs the tool exactly once more, at a level whose observed
    size is the smallest observed, reading the input and writing to the
    final path; it returns True and appends exactly one line to the log:
    [<input_path> - Compressed to <MB> MB (target: <target> MB) (Best
    Effort)] and a newline, where <MB> is the size of the final file
    divided by 1024 twice as a double and printed with two decimals.  The
    double is [d * 2^e / 2^20]: the size rounded to 53 significant bits,
    ties to even ([e] is 0 and [d] the size itself below 2^53 bytes); the
    text is the hundredths [h] nearest to the double, ties to even, as
    [h / 100], a point and the two digits of [h mod 100] (after [-] for a
    negative size). *)
Theorem best_effort_when_all_oversized (ocrmypdf : tool)
    (input_path output_path temp_output : path)
    (target_size_mb : float) (max_quality min_quality : Z) (w : world) :
  with_suffix output_path ".temp.pdf" = Val temp_output ->
  min_quality <= max_quality ->
  ~ In (-1) (descending max_quality (passes max_quality min_quality)) ->
  (forall tr c, exists size,
      ocrmypdf tr c = Exit0 size /\
      (inv_output c = temp_output -> within_target size target_size_mb = false)) ->
  let run := compress_pdf ocrmypdf input_path output_path target_size_mb
               max_quality min_quality w in
  exists attempts best_quality best_size final_size evs d e h,
    run.1 = Val true /\
    trace run.2 = trace w ++ evs /\
    runs evs =
      map (fun a => ({| jpeg_quality := a.1; inv_input := input_path;
                        inv_output := temp_output |}, Exit0 a.2)) attempts
      ++ [({| jpeg_quality := best_quality; inv_input := input_path;
              inv_output := output_path |}, Exit0 final_size)] /\
    map fst attempts = descending max_quality (passes max_quality min_quality) /\
    In (best_quality, best_size) attempts /\
    (forall a, In a attempts -> best_size <= a.2) /\
    st_size <$> fs run.2 !! output_path = Some final_size /\
    failures_log run.2 =
      failures_log w ++
      [path_str input_path +:+ " - Compressed to " +:+
       (if final_size <? 0 then "-" else "") +:+ pretty (h / 100) +:+ "." +:+
       pretty (h mod 100 / 10) +:+ pretty (h mod 10) +:+
       " MB (target: " +:+ float_str target_size_mb +:+ " MB) (Best Effort)"
       +:+ String "010"%char ""] /\
    e = Z.max 0 (Z.log2 (Z.abs final_size) - 52) /\
    2 * Z.abs (Z.abs final_size - d * 2 ^ e) <= 2 ^ e /\
    (2 * Z.abs (Z.abs final_size - d * 2 ^ e) = 2 ^ e -> Z.even d = true) /\
    0 <= h /\
    2 * Z.abs (100 * (d * 2 ^ e) - 1048576 * h) <= 1048576 /\
    (2 * Z.abs (100 * (d * 2 ^ e) - 1048576 * h) = 1048576 -> Z.even h = true).
Proof.
  intros Htemp Hrange Hlevels Hover run. subst run.
  unfold compress_pdf, bind, lift. rewrite Htemp.
  pose proof (with_suffix_output_nonempty _ _ Htemp) as Hout_ne.
  apply with_suffix_fresh in Htemp as [Hne Hnil].
  destruct (while_loop_run ocrmypdf input_path output_path temp_output target_size_mb
              min_quality (initial_state max_quality) w) as (ex & w' & -> & Hrun).
  destruct (loop_all_oversized _ _ _ _ _ _ Hnil _ _ _ _ Hover Hne Hrun)
    as (st' & attempts & evs & -> & Hfinal & Htr & Hruns & Hq & Hbest & _).
  destruct (loop_qualities _ _ _ _ _ _ Hnil _ _ _ _ Hrun)
    as (_ & _ & _ & Hlog & _).
  simpl in Hfinal, Hq, Hbest.
  assert (Hsome : attempts <> []).
  { intros ->. rewrite (passes_step max_quality min_quality) in Hq by lia. discriminate. }
  destruct (fold_best_inf attempts (-1) Hsome) as (b & sb & Hfold & Hin & Hmin).
  rewrite Hfold in Hbest. injection Hbest as Hb Hm.
  assert (Hb1 : b <> -1).
  { intros ->. apply Hlevels. rewrite <- Hq.
    change (-1) with (fst (-1, sb)). now apply in_map. }
  unfold after_loop. rewrite Hfinal, Hb. simpl.
  destruct (Z.eqb_spec b (-1)) as [?|_]; [contradiction|]. simpl.
  destruct (Hover (trace w') (cmd input_path b output_path)) as (final_size & Hr & _).
  destruct (best_effort_completed ocrmypdf input_path output_path target_size_mb
              b final_size w' Hout_ne Hr) as (w'' & -> & Htr' & Hlog' & Hfs').
  destruct (format_mb_decimal final_size)
    as (d & h & Hdnear & Hdtie & Hh & Hnear & Htie & Hfmt).
  exists attempts, b, sb, final_size,
    (evs ++ [EvRun (cmd input_path b output_path) (Exit0 final_size)]), d,
    (Z.max 0 (Z.log2 (Z.abs final_size) - 52)), h.
  split; [reflexivity|]. simpl.
  split; [rewrite Htr', Htr, <- app_assoc; reflexivity|].
  split; [rewrite runs_app, Hruns; reflexivity|].
  split; [assumption|]. split; [assumption|]. split; [assumption|].
  split; [assumption|].
  split.
  { rewrite Hlog', Hlog. unfold best_effort_line. rewrite Hfmt.
    now rewrite !string_app_assoc. }
  split; [reflexivity|]. split; [assumption|]. split; [assumption|].
  split; [assumption|]. split; assumption.
Qed.

Lemma best_effort_when_all_oversized_witness :
  let run := compress_pdf never_small_enough ["in"; "a.pdf"] ["out"; "a.pdf"]
               default_target_size_mb 40 5 empty_world in
  exists attempts best_quality best_size final_size evs d e h,
    run.1 = Val true /\
    trace run.2 = trace empty_world ++ evs /\
    runs evs =
      map (fun a => ({| jpeg_quality := a.1; inv_input := ["in"; "a.pdf"];
                        inv_output := ["out"; "a.temp.pdf"] |}, Exit0 a.2)) attempts
      ++ [({| jpeg_quality := best_quality; inv_input := ["in"; "a.pdf"];
              inv_output := ["out"; "a.pdf"] |}, Exit0 final_size)] /\
    map fst attempts = descending 40 (passes 40 5) /\
    In (best_quality, best_size) attempts /\
    (forall a, In a attempts -> best_size <= a.2) /\
    st_size <$> fs run.2 !! ["out"; "a.pdf"] = Some final_size /\
    failures_log run.2 =
      failures_log empty_world ++
      [path_str ["in"; "a.pdf"] +:+ " - Compressed to " +:+
       (if final_size <? 0 then "-" else "") +:+ pretty (h / 100) +:+ "." +:+
       pretty (h mod 100 / 10) +:+ pretty (h mod 10) +:+
       " MB (target: " +:+ float_str default_target_size_mb +:+ " MB) (Best Effort)"
       +:+ String "010"%char ""] /\
    e = Z.max 0 (Z.log2 (Z.abs final_size) - 52) /\
    2 * Z.abs (Z.abs final_size - d * 2 ^ e) <= 2 ^ e /\
    (2 * Z.abs (Z.abs final_size - d * 2 ^ e) = 2 ^ e -> Z.even d = true) /\
    0 <= h /\
    2 * Z.abs (100 * (d * 2 ^ e) - 1048576 * h) <= 1048576 /\
    (2 * Z.abs (100 * (d * 2 ^ e) - 1048576 * h) = 1048576 -> Z.even h = true).
Proof.
  apply (best_effort_when_all_oversized never_small_enough ["in"; "a.pdf"] ["out"; "a.pdf"]
           ["out"; "a.temp.pdf"] default_target_size_mb 40 5 empty_world).
  - reflexivity.
  - lia.
  - vm_compute. intros H. repeat (destruct H as [H|H]; [discriminate|]). exact H.
  - intros tr c. exists (2000000 + Z.max 0 (jpeg_quality c)). split; [reflexivity|].
    intros _. apply not_true_is_false. intros H. apply Qle_bool_iff in H.
    unfold Qle in H. simpl in H. lia.
Defined.

(** The printed size at values that show the rounding of the quotient and
    of its two decimals, and [str()] of relative and absolute paths. *)
Example format_mb_samples :
  format_mb 2000000 = "1.91" /\ format_mb 0 = "0.00" /\
  format_mb 131072 = "0.12" /\ format_mb 393216 = "0.38" /\
  format_mb 1572864 = "1.50" /\ format_mb 1048576000 = "1000.00" /\
  format_mb (2 ^ 53 + 1) = "8589934592.00" /\
  path_str ["/"; "tmp"; "a.pdf"] = "/tmp/a.pdf" /\ path_str [] = "." /\
  path_str ["in"; "a.pdf"] = "in/a.pdf".
Proof. vm_compute. repeat split. Qed.

(** When the extra run itself fails, the handler of the best-effort block
    returns False and nothing is logged. *)
Example best_effort_run_fails :
  let run := compress_pdf fails_on_final_path ["in"; "a.pdf"] ["out"; "a.pdf"]
               default_target_size_mb 40 5 empty_world in
  run.1 = Val false /\
  failures_log run.2 = [] /\
  fs run.2 !! ["out"; "a.pdf"] = None /\
  last (trace run.2) =
    Some (EvRun (cmd ["in"; "a.pdf"] 40 ["out"; "a.pdf"])
            (ExitNonzero "cannot write output" None)).
Proof. vm_compute. repeat split. Qed.

(** ** An attempt within the target *)

(** C1 (the code departs from the claim): the first attempt, at level 40,
    is within the target; the temporary file is moved to the final path
    and the loop stops after this single run, but the loop sets the local
    [success], not [final_success], so the code after the loop prints
    "Could not compress" and [compress_pdf] returns False. *)
Theorem first_attempt_fits_reports_failure :
  let input_path := ["in"; "a.pdf"] in
  let output_path := ["out"; "a.pdf"] in
  let temp_output := ["out"; "a.temp.pdf"] in
  let run := compress_pdf always_small input_path output_path
               default_target_size_mb 40 5 empty_world in
  within_target 1000000 default_target_size_mb = true /\
  run.1 = Val false /\
  trace run.2 = [EvRun (cmd input_path 40 temp_output) (Exit0 1000000);
                 EvMove temp_output output_path] /\
  st_size <$> fs run.2 !! output_path = Some 1000000 /\
  stdout run.2 = ["Error: Could not compress in/a.pdf at any quality level."].
Proof. vm_compute. repeat split. Qed.

(** C2 (the code departs from the claim): level 40 is over the target and
    level 35 is within it; the output of level 35 is moved to the final
    path, and because [final_success] is still False and level 40 was
    recorded, the best-effort block runs the tool a third time, at level
    40 and onto the final path, and logs a best-effort line. *)
Theorem best_effort_runs_after_success :
  let input_path := ["in"; "a.pdf"] in
  let output_path := ["out"; "a.pdf"] in
  let temp_output := ["out"; "a.temp.pdf"] in
  let run := compress_pdf fits_at_35 input_path output_path
               default_target_size_mb 40 5 empty_world in
  within_target 2000000 default_target_size_mb = false /\
  within_target 1500000 default_target_size_mb = true /\
  run.1 = Val true /\
  trace run.2 = [EvRun (cmd input_path 40 temp_output) (Exit0 2000000);
                 EvUnlink temp_output;
                 EvRun (cmd input_path 35 temp_output) (Exit0 1500000);
                 EvMove temp_output output_path;
                 EvRun (cmd input_path 40 output_path) (Exit0 2000000)] /\
  st_size <$> fs run.2 !! output_path = Some 2000000 /\
  failures_log run.2 =
    ["in/a.pdf - Compressed to 1.91 MB (target: 1.5 MB) (Best Effort)"
     +:+ String "010"%char ""].
Proof. vm_compute. repeat split. Qed.

(** ** The history of a whole job *)

(** The code after the loop runs the tool at most once, onto the final
    path; it raises only from the handler of a nonzero exit of that run,
    when the captured standard error is not UTF-8. *)
Lemma after_loop_history (ocrmypdf : tool) (input_path output_path : path)
    (target_size_mb : float) (st : search_state) (w : world) :
  exists r w' evs,
    after_loop ocrmypdf input_path output_path target_size_mb st w = (r, w') /\
    trace w' = trace w ++ evs /\
    (evs = [] \/
     exists q, evs = [EvRun (cmd input_path q output_path)
                        (ocrmypdf (trace w) (cmd input_path q output_path))]) /\
    (forall c, In (EvRun c CommandNotFound) evs -> r = Val false) /\
    (forall e, r = Exc e ->
       exists c stderr partial,
         evs = [EvRun c (ExitNonzero stderr partial)] /\ utf8_valid stderr = false).
Proof.
  unfold after_loop.
  destruct (negb (final_success st) && negb (best_quality_so_far st =? -1))%bool.
  - unfold best_effort, try_except, bind, print, subprocess_run, ret. simpl.
    set (c := cmd input_path (best_quality_so_far st) output_path).
    destruct (ocrmypdf (trace w) c) eqn:Hr; simpl.
    + unfold stat, log_write. simpl.
      match goal with |- context [lookup_path ?f ?p] => destruct (lookup_path f p) end;
        simpl; do 2 eexists; exists [EvRun c (Exit0 size)];
        (split; [reflexivity|]); (split; [reflexivity|]);
        (split; [right; exists (best_quality_so_far st); fold c; rewrite Hr; reflexivity|]);
        (split; [intros c' [Heq|[]]; discriminate | intros e; discriminate]).
    + unfold lift, decode. destruct (utf8_valid stderr) eqn:Hutf; destruct partial; simpl;
        do 2 eexists; eexists [EvRun c (ExitNonzero stderr _)];
        (split; [reflexivity|]); (split; [reflexivity|]);
        (split; [right; exists (best_quality_so_far st); fold c; rewrite Hr; reflexivity|]);
        (split; [intros c' [Heq|[]]; discriminate|]);
        intros e; try discriminate; intros _; eauto.
    + do 2 eexists. exists [EvRun c CommandNotFound].
      split; [reflexivity|]. split; [reflexivity|].
      split; [right; exists (best_quality_so_far st); fold c; rewrite Hr; reflexivity|].
      split; [reflexivity | intros e; discriminate].
    + do 2 eexists. exists [EvRun c (OtherFailure msg)].
      split; [reflexivity|]. split; [reflexivity|].
      split; [right; exists (best_quality_so_far st); fold c; rewrite Hr; reflexivity|].
      split; [intros c' [Heq|[]]; discriminate | intros e; discriminate].
  - destruct (negb (final_success st) && (best_quality_so_far st =? -1))%bool.
    + unfold bind, print, ret. simpl. do 2 eexists. exists [].
      split; [reflexivity|]. simpl. rewrite app_nil_r.
      split; [reflexivity|]. split; [now left|].
      split; [intros c [] | intros e; discriminate].
    + unfold ret. do 2 eexists. exists [].
      split; [reflexivity|]. rewrite app_nil_r.
      split; [reflexivity|]. split; [now left|].
      split; [intros c [] | intros e; discriminate].
Qed.

(** ** The batch walk *)

Lemma below_relative_to (source_path p : path) :
  below source_path p = true ->
  relative_to p source_path = Val (drop (length source_path) p).
Proof.
  revert p. induction source_path as [|b base IH]; intros [|c p]; simpl;
    try discriminate; try reflexivity.
  destruct (String.eqb b c); simpl; [apply IH | discriminate].
Qed.

Lemma below_nonempty (source_path p : path) : below source_path p = true -> p <> [].
Proof. destruct source_path, p; simpl; congruence. Qed.

(** What the glob finds lies below the source and exists. *)
Lemma glob_pdf_found (source_path : path) (w : world) :
  exists files,
    glob_pdf source_path w = (Val files, w) /\
    Forall (fun p => below source_path p = true /\
                     ends_with ".pdf" (name p) = true /\
                     is_Some (lookup_path (fs w) p)) files.
Proof.
  eexists. split; [reflexivity|].
  apply List.Forall_forall. intros p Hin.
  apply filter_In in Hin as [Hin Hp]. apply andb_prop in Hp as [Hb He].
  split; [assumption|]. split; [assumption|].
  rewrite lookup_path_cons by (eapply below_nonempty; eassumption).
  apply in_map_iff in Hin as ([q s] & <- & Hin). simpl.
  apply list_elem_of_In, elem_of_map_to_list in Hin. eauto.
Qed.

Section BatchProperties.

Variable ocrmypdf : tool.

Lemma up_to_date_current (input_file output_file : path) (w : world) :
  is_Some (lookup_path (fs w) input_file) ->
  up_to_date input_file output_file w =
  (Val (is_current (fs w) input_file output_file), w).
Proof.
  intros [si Hsi]. unfold up_to_date, is_current, bind, exists_, stat, ret.
  destruct (lookup_path (fs w) output_file) as [so|] eqn:Hso; simpl; [|reflexivity].
  rewrite Hso, Hsi. reflexivity.
Qed.

(** The submission loop over files found by the glob: one count for
    every file whose output is current, one task for every other. *)
Lemma submit_loop_found (source_path dest_path : path) (files : list path) (w : world)
    (skipped : nat) (futures : list (path * path)) :
  Forall (fun p => below source_path p = true /\
                   ends_with ".pdf" (name p) = true /\
                   is_Some (lookup_path (fs w) p)) files ->
  let current p := is_current (fs w) p (mirrored source_path dest_path p) in
  submit_loop source_path dest_path files skipped futures w =
  (Val (skipped + length (List.filter current files),
        futures ++ map (fun p => (p, mirrored source_path dest_path p))
                       (List.filter (fun p => negb (current p)) files))%nat, w).
Proof.
  intros Hall current. revert skipped futures.
  induction Hall as [|p files (Hb & _ & Hex) _ IH]; intros skipped futures; simpl.
  - unfold ret. now rewrite Nat.add_0_r, app_nil_r.
  - unfold bind at 1, lift. rewrite (below_relative_to _ _ Hb).
    unfold bind at 1. rewrite (up_to_date_current _ _ _ Hex).
    fold (mirrored source_path dest_path p). fold (current p).
    destruct (current p); simpl; rewrite IH.
    + now rewrite Nat.add_succ_r.
    + now rewrite <- app_assoc.
Qed.

(** A task never raises: [process_pdf] catches every exception. *)
Lemma process_pdf_total (input_path output_path : path) (w : world) :
  exists b w', process_pdf ocrmypdf input_path output_path w = (Val b, w').
Proof.
  unfold process_pdf, try_except.
  match goal with |- context [match ?m w with _ => _ end] => destruct (m w) as [[b|e] w'] end.
  - eauto.
  - unfold bind, print, ret. simpl. eauto.
Qed.

Lemma run_pool_total (tasks : list (path * path)) (w : world) :
  exists futures w',
    run_pool ocrmypdf tasks w = (Val futures, w') /\
    length futures = length tasks /\
    Forall (fun f => exists b, f = Returned b) futures.
Proof.
  revert w. induction tasks as [|t tasks IH]; intros w; simpl.
  - exists [], w. repeat split. constructor.
  - unfold bind at 1, run_task.
    destruct (process_pdf_total t.1 t.2 w) as (b & w1 & ->).
    unfold bind at 1. destruct (IH w1) as (futures & w2 & -> & Hlen & Hall).
    exists (Returned b :: futures), w2. unfold ret. simpl.
    split; [reflexivity|]. split; [now rewrite Hlen|].
    constructor; eauto.
Qed.

(** The collecting loop never raises and counts every future once:
    a True result as processed, a False result or an exception as
    failed. *)
Lemma as_completed_loop_counts (futures : list future) (total processed failed : nat)
    (w : world) :
  exists processed' failed' w',
    as_completed_loop futures total processed failed w = (Val (processed', failed'), w') /\
    (processed' = processed + length (List.filter (fun f => match f with
                                                        | Returned true => true
                                                        | _ => false
                                                        end) futures))%nat /\
    (failed' = failed + length (List.filter (fun f => match f with
                                                   | Returned true => false
                                                   | _ => true
                                                   end) futures))%nat /\
    fs w' = fs w /\ trace w' = trace w /\ failures_log w' = failures_log w.
Proof.
  revert processed failed w.
  induction futures as [|f futures IH]; intros processed failed w; simpl.
  - exists processed, failed, w. unfold ret. repeat split; lia.
  - destruct f as [result|e].
    + unfold bind at 1.
      match goal with |- context [if ?c then print ?m else ret tt] => destruct c end;
        unfold print; simpl;
        match goal with |- context [as_completed_loop futures total ?p ?f ?w1] =>
          destruct (IH p f w1) as (p2 & f2 & w2 & -> & Hp & Hf & Hfs2 & Htr2 & Hlg2)
        end;
        exists p2, f2, w2; (split; [reflexivity|]);
        destruct result; simpl in *; repeat split; try lia; congruence.
    + unfold bind at 1, print. simpl.
      match goal with |- context [as_completed_loop futures total ?p ?f ?w1] =>
        destruct (IH p f w1) as (p2 & f2 & w2 & -> & Hp & Hf & Hfs2 & Htr2 & Hlg2)
      end.
      exists p2, f2, w2. split; [reflexivity|]. simpl in *.
      repeat split; try lia; congruence.
Qed.

End BatchProperties.


(** The whole batch: it never raises, and its counters are those of the
    submission loop and of the collecting loop. *)
Lemma run_batch_counts (ocrmypdf : tool) (source_path dest_path : path) (w : world) :
  let current p := is_current (fs w) p (mirrored source_path dest_path p) in
  exists files futures s w',
    glob_pdf source_path w = (Val files, w) /\
    run_batch ocrmypdf source_path dest_path w = (Val s, w') /\
    total_files s = length files /\
    skipped_count s = length (List.filter current files) /\
    length futures = length (List.filter (fun p => negb (current p)) files) /\
    processed_count s = length (List.filter (fun f => match f with
                                                   | Returned true => true
                                                   | _ => false
                                                   end) futures) /\
    failed_count s = length (List.filter (fun f => match f with
                                                | Returned true => false
                                                | _ => true
                                                end) futures).
Proof.
  intros current. subst current.
  destruct (glob_pdf_found source_path w) as (files & Hglob & Hfiles).
  set (w1 := (print ("Found " +:+ pretty (length files) +:+ " PDF files to process") w).2).
  pose proof (submit_loop_found source_path dest_path files w1 0 [] Hfiles) as Hsubmit.
  simpl in Hsubmit.
  match type of Hsubmit with _ = (Val (_, ?tasks), _) =>
    destruct (run_pool_total ocrmypdf tasks w1) as (futures & w2 & Hpool & Hlen & _)
  end.
  destruct (as_completed_loop_counts futures (length files) 0 0 w2)
    as (p & f & w3 & Hcoll & Hp & Hf & _).
  exists files, futures. eexists {| total_files := length files; processed_count := p;
                                    failed_count := f; skipped_count := _ |}, w3.
  split; [assumption|]. split.
  - unfold run_batch, pool_block. unfold bind at 1. rewrite Hglob.
    unfold bind at 1. change (print _ w) with (Val tt, w1).
    unfold bind at 1. rewrite Hsubmit. simpl.
    unfold bind at 1. rewrite Hpool.
    unfold bind at 1. rewrite Hcoll. reflexivity.
  - simpl. rewrite length_map in Hlen. repeat split; auto.
Qed.

Lemma is_current_true (f : gmap path stat_result) (input_file output_file : path) :
  is_current f input_file output_file = true <->
  exists so si,
    lookup_path f output_file = Some so /\
    lookup_path f input_file = Some si /\
    st_mtime si <= st_mtime so.
Proof.
  unfold is_current. split.
  - destruct (lookup_path f output_file) as [so|]; [|discriminate].
    destruct (lookup_path f input_file) as [si|]; [|discriminate].
    intros H. apply Z.leb_le in H. eauto.
  - intros (so & si & -> & -> & H). now apply Z.leb_le.
Qed.

(** C8: over the files the glob finds, the submission loop counts a file as
    skipped, and submits no task for it, exactly when its mirrored output
    path exists and the output's modification time is at least the
    input's; every other file gets one task with its mirrored path. *)
Theorem skipped_iff_output_current (source_path dest_path : path) (w : world) :
  exists files skipped tasks,
    glob_pdf source_path w = (Val files, w) /\
    submit_loop source_path dest_path files 0 [] w = (Val (skipped, tasks), w) /\
    skipped = length (List.filter
                        (fun p => is_current (fs w) p (mirrored source_path dest_path p))
                        files) /\
    tasks = map (fun p => (p, mirrored source_path dest_path p))
              (List.filter
                 (fun p => negb (is_current (fs w) p (mirrored source_path dest_path p)))
                 files) /\
    forall input_file, In input_file files ->
      let output_file := mirrored source_path dest_path input_file in
      (forall task, In task tasks -> task.1 <> input_file) <->
      (exists so si,
          lookup_path (fs w) output_file = Some so /\
          lookup_path (fs w) input_file = Some si /\
          st_mtime si <= st_mtime so).
Proof.
  destruct (glob_pdf_found source_path w) as (files & Hglob & Hfiles).
  pose proof (submit_loop_found source_path dest_path files w 0 [] Hfiles) as Hsubmit.
  simpl in Hsubmit.
  exists files. do 2 eexists. split; [assumption|]. split; [exact Hsubmit|].
  split; [reflexivity|]. split; [reflexivity|].
  intros input_file Hin output_file. rewrite <- is_current_true. split.
  - intros Hnone.
    destruct (is_current (fs w) input_file output_file) eqn:Hc; [reflexivity|].
    exfalso. apply (Hnone (input_file, output_file)); [|reflexivity].
    apply in_map_iff. exists input_file. split; [reflexivity|].
    apply filter_In. split; [assumption|]. subst output_file. now rewrite Hc.
  - intros Hc task Htask Heq.
    apply in_map_iff in Htask as (p & <- & Hp). simpl in Heq. subst p.
    apply filter_In in Hp as [_ Hp]. subst output_file. rewrite Hc in Hp. discriminate.
Qed.

(** The counters of a batch add up to the number of files found. *)
Lemma counters_total (ocrmypdf : tool) (source_path dest_path : path) (w : world) :
  exists s w',
    run_batch ocrmypdf source_path dest_path w = (Val s, w') /\
    (processed_count s + failed_count s + skipped_count s = total_files s)%nat.
Proof.
  destruct (run_batch_counts ocrmypdf source_path dest_path w)
    as (files & futures & s & w' & Hglob & Hrun & Htotal & Hskip & Hlen & Hp & Hf).
  exists s, w'. split; [assumption|].
  pose proof (filter_length
                (fun p => is_current (fs w) p (mirrored source_path dest_path p)) files)
    as Hfiles.
  pose proof (filter_length (fun f => match f with Returned true => true | _ => false end)
                futures) as Hfutures.
  rewrite (filter_ext (fun f => negb match f with Returned true => true | _ => false end)
             (fun f => match f with Returned true => false | _ => true end))
    in Hfutures by (intros [[]|]; reflexivity).
  lia.
Qed.

(** C10: when the batch ends, processed + failed + skipped is the number
    of files the glob found: each file was skipped or submitted once, and
    each submitted task was counted once. *)
Theorem counters_sum_to_total (ocrmypdf : tool) (source_path dest_path : path) (w : world) :
  exists files s w',
    glob_pdf source_path w = (Val files, w) /\
    run_batch ocrmypdf source_path dest_path w = (Val s, w') /\
    total_files s = length files /\
    (processed_count s + failed_count s + skipped_count s = total_files s)%nat.
Proof.
  destruct (run_batch_counts ocrmypdf source_path dest_path w)
    as (files & futures & s & w' & Hglob & Hrun & Htotal & _).
  destruct (counters_total ocrmypdf source_path dest_path w) as (s' & w'' & Hrun' & Hsum).
  rewrite Hrun in Hrun'. injection Hrun' as <- <-.
  exists files, s, w'. auto.
Qed.

Lemma runs_onto_app (p : path) (a b : list event) :
  runs_onto p (a ++ b) = runs_onto p a ++ runs_onto p b.
Proof. unfold runs_onto. now rewrite runs_app, List.filter_app. Qed.

Lemma runs_onto_elsewhere (p q : path) (evs : list event) :
  q <> p -> Forall (fun cr => inv_output cr.1 = q) (runs evs) -> runs_onto p evs = [].
Proof.
  intros Hne. unfold runs_onto. induction 1 as [|cr l Hq _ IH]; simpl; [reflexivity|].
  rewrite bool_decide_eq_false_2 by congruence. assumption.
Qed.

(** The history of a whole job, whatever the tool answers. *)
Lemma compress_pdf_history (ocrmypdf : tool) (input_path output_path temp_output : path)
    (target_size_mb : float) (max_quality min_quality : Z) (w : world) :
  with_suffix output_path ".temp.pdf" = Val temp_output ->
  exists r w' evs,
    compress_pdf ocrmypdf input_path output_path target_size_mb
      max_quality min_quality w = (r, w') /\
    trace w' = trace w ++ evs /\
    Forall (job_event input_path output_path temp_output) evs /\
    (length (runs_onto output_path evs) <= 1)%nat /\
    (forall c, In (EvRun c CommandNotFound) evs ->
               r = Val false /\ last evs = Some (EvRun c CommandNotFound)) /\
    ((forall tr c size, ocrmypdf tr c = Exit0 size -> inv_output c = temp_output ->
                        within_target size target_size_mb = false) ->
     forall src dst, ~ In (EvMove src dst) evs).
Proof.
  intros Htemp. unfold compress_pdf, bind, lift. rewrite Htemp.
  apply with_suffix_fresh in Htemp as [Hne Hnil].
  destruct (while_loop_run ocrmypdf input_path output_path temp_output target_size_mb
              min_quality (initial_state max_quality) w) as (ex & w1 & -> & Hrun).
  destruct (loop_history _ _ _ _ _ _ Hnil _ _ _ _ Hrun)
    as (evs & Htr & Hall & Hruns & Hnf & Hmv).
  pose proof (runs_onto_elsewhere output_path temp_output evs Hne Hruns) as Honto.
  destruct ex as [[st|b]|e].
  - destruct (after_loop_history ocrmypdf input_path output_path target_size_mb st w1)
      as (r & w2 & evs2 & -> & Htr2 & Hshape & Hnf2 & _).
    exists r, w2, (evs ++ evs2).
    split; [reflexivity|]. split; [rewrite Htr2, Htr, <- app_assoc; reflexivity|].
    split.
    { apply Forall_app. split; [assumption|].
      destruct Hshape as [->|[q ->]]; repeat constructor. }
    split.
    { rewrite runs_onto_app, Honto. simpl.
      destruct Hshape as [->|[q ->]]; unfold runs_onto; simpl; [lia|].
      destruct (bool_decide _); simpl; lia. }
    split.
    + intros c Hin. apply in_app_or in Hin as [Hin|Hin].
      * apply Hnf in Hin as [? _]. discriminate.
      * rewrite (Hnf2 c Hin). split; [reflexivity|].
        destruct Hshape as [->|[q ->]]; [destruct Hin|].
        destruct Hin as [Heq|[]]. rewrite Heq. now rewrite last_snoc.
    + intros Hbig src dst Hin. apply in_app_or in Hin as [Hin|Hin].
      * now apply (Hmv Hbig src dst).
      * destruct Hshape as [->|[q ->]]; [destruct Hin|].
        destruct Hin as [Heq|[]]. discriminate.
  - exists (Val b), w1, evs. unfold ret.
    split; [reflexivity|]. split; [assumption|]. split; [assumption|].
    split; [rewrite Honto; simpl; lia|]. split; [|assumption].
    intros c Hin. destruct (Hnf c Hin) as [Heq Hlast].
    injection Heq as ->. auto.
  - exists (Exc e), w1, evs.
    split; [reflexivity|]. split; [assumption|]. split; [assumption|].
    split; [rewrite Honto; simpl; lia|]. split; [|assumption].
    intros c Hin. destruct (Hnf c Hin) as [Heq _]. discriminate.
Qed.

(** ** Directory creation keeps what exists *)

Lemma only_mkdirs_refl (w : world) : only_mkdirs w w.
Proof. exists []. rewrite app_nil_r. repeat split; auto. Qed.

Lemma only_mkdirs_trans (w1 w2 w3 : world) :
  only_mkdirs w1 w2 -> only_mkdirs w2 w3 -> only_mkdirs w1 w3.
Proof.
  intros (e1 & Ht1 & Ha1 & Hl1 & Hf1) (e2 & Ht2 & Ha2 & Hl2 & Hf2).
  exists (e1 ++ e2). split; [rewrite Ht2, Ht1, <- app_assoc; reflexivity|].
  split; [now apply Forall_app|]. split; [congruence|].
  intros q Hq. rewrite Hf2, Hf1; auto. now rewrite Hf1.
Qed.

Lemma os_mkdir_only_mkdirs (p : path) (w : world) r w' :
  os_mkdir p w = (r, w') -> only_mkdirs w w'.
Proof.
  unfold os_mkdir. destruct (present (lookup_path (fs w) p)) eqn:Hp.
  - intros [= _ <-]. apply only_mkdirs_refl.
  - destruct (lookup_path (fs w) (parent p)) as [s|]; [|intros [= _ <-]; apply only_mkdirs_refl].
    destruct (st_isdir s); [|intros [= _ <-]; apply only_mkdirs_refl].
    intros [= _ <-]. exists [EvMkdir p]. simpl.
    split; [reflexivity|]. split; [repeat constructor; eauto|]. split; [reflexivity|].
    intros q [x Hq]. apply lookup_insert_ne. intros <-.
    destruct p; [discriminate|]. simpl in Hp. rewrite Hq in Hp. discriminate.
Qed.

Lemma mkdir_exist_ok_only_mkdirs (p : path) (w : world) r w' :
  mkdir_exist_ok p w = (r, w') -> only_mkdirs w w'.
Proof.
  unfold mkdir_exist_ok, try_except.
  destruct (os_mkdir p w) as [[[]|e] w1] eqn:Hos.
  - intros [= _ <-]. eapply os_mkdir_only_mkdirs; eassumption.
  - apply os_mkdir_only_mkdirs in Hos.
    destruct e; unfold raise; try destruct (is_dir (fs w1) p);
      intros [= _ <-]; assumption.
Qed.

Lemma mkdir_parents_only_mkdirs (p : path) (w : world) :
  only_mkdirs w (mkdir_parents p w).2.
Proof.
  funelim (mkdir_parents p w); simpl;
    try match goal with
        | H : os_mkdir _ _ = _ |- _ =>
            pose proof (os_mkdir_only_mkdirs _ _ _ _ H) as Hfirst
        end;
    try match goal with
        | H : mkdir_parents ?q ?w1 = (_, ?w2), IH : only_mkdirs ?w1 (mkdir_parents ?q ?w1).2
          |- _ =>
            assert (Hparent : only_mkdirs w1 w2) by (now rewrite H in IH)
        end.
  - assumption.
  - destruct (is_dir (fs w') p); assumption.
  - destruct (is_dir (fs w') p); assumption.
  - apply only_mkdirs_refl.
  - destruct (mkdir_exist_ok (c :: q) w'') as [r w3] eqn:Hlast.
    apply mkdir_exist_ok_only_mkdirs in Hlast. simpl.
    eauto using only_mkdirs_trans.
  - eauto using only_mkdirs_trans.
Qed.

Lemma only_mkdirs_print (s : string) (w w1 : world) :
  only_mkdirs w w1 -> only_mkdirs w (print s w1).2.
Proof. intros (evs & ? & ? & ? & ?). exists evs. simpl. auto. Qed.

(** A task whose output path is taken runs nothing and keeps the file. *)
Lemma process_pdf_existing (ocrmypdf : tool) (input_path output_path : path) (w : world) :
  output_path <> [] ->
  is_Some (fs w !! output_path) ->
  exists b w',
    process_pdf ocrmypdf input_path output_path w = (Val b, w') /\
    only_mkdirs w w' /\
    (b = true \/ exists e, (mkdir_parents (parent output_path) w).1 = Exc e).
Proof.
  intros Hne Hex. unfold process_pdf, try_except. unfold bind at 1.
  pose proof (mkdir_parents_only_mkdirs (parent output_path) w) as Hmk.
  destruct (mkdir_parents (parent output_path) w) as [[[]|e] w1]; simpl in Hmk.
  - unfold bind at 1, exists_. rewrite lookup_path_cons by assumption.
    destruct Hmk as (evs & Htr & Hall & Hlog & Hfs).
    rewrite (Hfs _ Hex). destruct Hex as [s ->]. simpl.
    unfold bind, print, ret. simpl. do 2 eexists. split; [reflexivity|].
    split; [|now left]. exists evs. simpl. auto.
  - unfold bind, print, ret. simpl. do 2 eexists. split; [reflexivity|].
    split; [|right; eauto].
    destruct Hmk as (evs & Htr & Hall & Hlog & Hfs). exists evs. simpl. auto.
Qed.

(** ** The tool is missing *)

Example missing_after_40_run :
  let run := compress_pdf missing_after_40 ["in"; "a.pdf"] ["out"; "a.pdf"]
               default_target_size_mb 40 5 empty_world in
  run.1 = Val false /\
  trace run.2 =
    [EvRun (cmd ["in"; "a.pdf"] 40 ["out"; "a.temp.pdf"]) (Exit0 2000000);
     EvUnlink ["out"; "a.temp.pdf"];
     EvRun (cmd ["in"; "a.pdf"] 35 ["out"; "a.temp.pdf"]) CommandNotFound] /\
  fs run.2 = ∅ /\ failures_log run.2 = [].
Proof. vm_compute. repeat split. Qed.

(** C6: in every job, a run of the tool that finds no executable is the
    last thing the job does (no lower level is tried, no best-effort run
    follows) and [compress_pdf] returns False; the batch around it never
    raises: every task is run and [run_batch] returns its counters. *)
Theorem tool_not_found_aborts_job (ocrmypdf : tool) (input_path output_path : path)
    (target_size_mb : float) (max_quality min_quality : Z) (w : world) :
  let run := compress_pdf ocrmypdf input_path output_path target_size_mb
               max_quality min_quality w in
  (exists evs,
      trace run.2 = trace w ++ evs /\
      forall c, In (EvRun c CommandNotFound) evs ->
                run.1 = Val false /\ last evs = Some (EvRun c CommandNotFound)) /\
  (forall tasks w0, exists futures w1,
      run_pool ocrmypdf tasks w0 = (Val futures, w1) /\
      length futures = length tasks) /\
  (forall source_path dest_path w0, exists s w1,
      run_batch ocrmypdf source_path dest_path w0 = (Val s, w1)).
Proof.
  intros run. split; [|split].
  - subst run. destruct (with_suffix output_path ".temp.pdf") as [temp_output|e] eqn:Htemp.
    + destruct (compress_pdf_history ocrmypdf input_path output_path temp_output
                  target_size_mb max_quality min_quality w Htemp)
        as (r & w' & evs & -> & Htr & _ & _ & Hnf & _).
      exists evs. split; assumption.
    + unfold compress_pdf, bind, lift. rewrite Htemp. simpl.
      exists []. rewrite app_nil_r. split; [reflexivity | intros c []].
  - intros tasks w0.
    destruct (run_pool_total ocrmypdf tasks w0) as (futures & w1 & Hpool & Hlen & _).
    eauto.
  - intros source_path dest_path w0.
    destruct (run_batch_counts ocrmypdf source_path dest_path w0)
      as (_ & _ & s & w1 & _ & Hrun & _).
    eauto.
Qed.

(** ** Containment of failures and the final report *)


Example blocked_directory_counts_as_failure :
  let run := process_pdf always_small ["src"; "sub"; "b.pdf"] ["dst"; "sub"; "b.pdf"]
               blocked_world in
  (mkdir_parents ["dst"; "sub"] blocked_world).1 = Exc (Exception "File exists: dst/sub") /\
  run.1 = Val false /\
  runs (trace run.2) = [].
Proof. vm_compute. repeat split. Qed.



Example sample_tree_report :
  let run := find_and_compress_pdfs fits_at_35 ["src"] ["dst"] 8 sample_tree in
  exists before,
    stdout run.2 =
      before ++ [String "010"%char "Processing complete:"; "- Total files: 3";
                 "- Processed successfully: 1"; "- Failed: 1";
                 "- Skipped (already exists): 1"].
Proof.
  exists ["Found 3 PDF files to process"; "Processing src/c.pdf -> dst/c.pdf";
          "Target size not met. Generating best possible output with quality 40.";
          "Error processing src/sub/b.pdf: File exists: dst/sub"].
  vm_compute. reflexivity.
Qed.

(** No pool without workers: the run stops after its first line. *)
Example no_workers_no_report :
  let run := find_and_compress_pdfs fits_at_35 ["src"] ["dst"] 0 sample_tree in
  run.1 = Exc (Exception "max_workers must be greater than 0") /\
  stdout run.2 = ["Found 3 PDF files to process"] /\
  trace run.2 = [].
Proof. vm_compute. repeat split. Qed.


(** ** How the final file is made *)

(** C3, as stated, fails: when every output is over the target the final
    file is there after the job although it was not before, and nothing
    was renamed: the best-effort run of the tool wrote it in place. *)
Lemma best_effort_output_is_not_renamed :
  let input_path := ["in"; "a.pdf"] in
  let output_path := ["out"; "a.pdf"] in
  let run := compress_pdf never_small_enough input_path output_path
               default_target_size_mb 40 5 empty_world in
  fs empty_world !! output_path = None /\
  st_size <$> fs run.2 !! output_path = Some 2000005 /\
  last (trace run.2) = Some (EvRun (cmd input_path 5 output_path) (Exit0 2000005)) /\
  ~ exists src dst, In (EvMove src dst) (trace run.2).
Proof.
  split; [reflexivity|]. split; [reflexivity|]. split; [reflexivity|].
  intros (src & dst & Hin). vm_compute in Hin.
  repeat (destruct Hin as [Hin|Hin]; [discriminate|]). exact Hin.
Qed.

(** C3, amended: the temporary path differs from the final path; all a
    job does is run the tool into the temporary file, delete that file,
    rename it onto the final path (or into it, when that is a directory),
    and run the tool onto the final path in the best-effort block, the
    last at most once; a job none of whose attempts is within the target
    renames nothing, so its final file is written once or not at all; and
    a task whose output path is taken runs no tool, renames and deletes
    nothing and keeps every existing file, the output among them. *)
Theorem output_by_rename_or_best_effort (ocrmypdf : tool)
    (input_path output_path temp_output : path)
    (target_size_mb : float) (max_quality min_quality : Z) (w : world) :
  with_suffix output_path ".temp.pdf" = Val temp_output ->
  temp_output <> output_path /\
  (let run := compress_pdf ocrmypdf input_path output_path target_size_mb
                max_quality min_quality w in
   exists evs,
     trace run.2 = trace w ++ evs /\
     Forall (job_event input_path output_path temp_output) evs /\
     (length (runs_onto output_path evs) <= 1)%nat /\
     ((forall tr c size, ocrmypdf tr c = Exit0 size -> inv_output c = temp_output ->
                         within_target size target_size_mb = false) ->
      forall src dst, ~ In (EvMove src dst) evs)) /\
  (is_Some (fs w !! output_path) ->
   let task := process_pdf ocrmypdf input_path output_path w in
   exists b,
     task.1 = Val b /\
     only_mkdirs w task.2 /\
     (b = true \/ exists e, (mkdir_parents (parent output_path) w).1 = Exc e)).
Proof.
  intros Htemp. split; [|split].
  - now apply with_suffix_fresh in Htemp.
  - destruct (compress_pdf_history ocrmypdf input_path output_path temp_output
                target_size_mb max_quality min_quality w Htemp)
      as (r & w' & evs & -> & Htr & Hall & Hone & _ & Hmv).
    exists evs. auto.
  - intros Hex.
    destruct (process_pdf_existing ocrmypdf input_path output_path w
                (with_suffix_output_nonempty _ _ Htemp) Hex)
      as (b & w' & -> & Hmk & Hb).
    exists b. auto.
Qed.

Lemma output_by_rename_or_best_effort_witness :
  let input_path := ["src"; "a.pdf"] in
  let output_path := ["dst"; "a.pdf"] in
  let temp_output := ["dst"; "a.temp.pdf"] in
  temp_output <> output_path /\
  (let run := compress_pdf never_small_enough input_path output_path
                default_target_size_mb 40 5 sample_tree in
   exists evs,
     trace run.2 = trace sample_tree ++ evs /\
     Forall (job_event input_path output_path temp_output) evs /\
     (length (runs_onto output_path evs) <= 1)%nat /\
     ((forall tr c size, never_small_enough tr c = Exit0 size ->
                         inv_output c = temp_output ->
                         within_target size default_target_size_mb = false) ->
      forall src dst, ~ In (EvMove src dst) evs)) /\
  (is_Some (fs sample_tree !! output_path) ->
   let task := process_pdf never_small_enough input_path output_path sample_tree in
   exists b,
     task.1 = Val b /\
     only_mkdirs sample_tree task.2 /\
     (b = true \/ exists e, (mkdir_parents (parent output_path) sample_tree).1 = Exc e)).
Proof.
  apply (output_by_rename_or_best_effort never_small_enough ["src"; "a.pdf"]
           ["dst"; "a.pdf"] ["dst"; "a.temp.pdf"] default_target_size_mb 40 5 sample_tree).
  reflexivity.
Defined.

(** * Further properties of the code *)

(** ** What a job leaves in the log and in the history *)

(** The loop never sets [final_success]. *)
Lemma loop_final_success (ocrmypdf : tool) (input_path output_path temp_output : path)
    (target_size_mb : float) (min_quality : Z) st w st' w' :
  temp_output <> [] ->
  loop_run ocrmypdf input_path output_path temp_output target_size_mb min_quality
    st w (Val (LoopEnd st')) w' ->
  final_success st' = final_success st.
Proof.
  intros Hnil Hrun. remember (Val (LoopEnd st')) as ex eqn:Hex.
  induction Hrun as [st w Hlt | st w st1 w1 ex w2 Hge Hat Hrun IH
                    | st w st1 w1 Hge Hat | st w b w1 Hge Hat | st w e w1 Hge Hat];
    try discriminate.
  - now injection Hex as ->.
  - rewrite (IH Hex).
    now destruct (attempt_result _ _ _ _ _ Hnil _ _ _ _ Hat) as [_ ?].
  - injection Hex as ->.
    destruct (attempt_spec ocrmypdf input_path output_path temp_output
                target_size_mb Hnil st w) as (res & w0 & post & Heq & Hcase & _).
    rewrite Hat in Heq. injection Heq as <- <-. inversion Hcase; subst. reflexivity.
Qed.

(** The code after the loop: it returns True exactly when the best-effort
    run has succeeded, and then it has logged that run's size. *)
Lemma after_loop_outcome (ocrmypdf : tool) (input_path output_path : path)
    (target_size_mb : float) (st : search_state) (w : world) :
  output_path <> [] ->
  final_success st = false ->
  exists r w' evs,
    after_loop ocrmypdf input_path output_path target_size_mb st w = (r, w') /\
    trace w' = trace w ++ evs /\
    ((r = Val true /\
      best_quality_so_far st <> -1 /\
      exists final_size,
        evs = [EvRun (cmd input_path (best_quality_so_far st) output_path)
                 (Exit0 final_size)] /\
        failures_log w' =
          failures_log w ++ [best_effort_line input_path final_size target_size_mb] /\
        st_size <$> fs w' !! output_path = Some final_size) \/
     (r <> Val true /\
      failures_log w' = failures_log w /\
      (evs = [] \/
       exists r0, evs = [EvRun (cmd input_path (best_quality_so_far st) output_path) r0]))).
Proof.
  intros Hne Hfinal. unfold after_loop. rewrite Hfinal. simpl.
  destruct (Z.eqb_spec (best_quality_so_far st) (-1)) as [Hb|Hb]; simpl.
  - unfold bind, print, ret. simpl. do 2 eexists. exists [].
    split; [reflexivity|]. simpl. rewrite app_nil_r. split; [reflexivity|].
    right. split; [discriminate | auto].
  - set (c := cmd input_path (best_quality_so_far st) output_path).
    destruct (ocrmypdf (trace w) c) as [size|stderr partial| |msg] eqn:Hr.
    + destruct (best_effort_completed ocrmypdf input_path output_path target_size_mb
                  (best_quality_so_far st) size w Hne Hr)
        as (w' & Heq & Htr & Hlog & Hfs).
      exists (Val true), w', [EvRun c (Exit0 size)].
      split; [exact Heq|]. split; [exact Htr|].
      left. split; [reflexivity|]. split; [assumption|]. exists size. auto.
    + unfold best_effort, try_except, bind, print, subprocess_run, ret, lift, decode. simpl.
      fold c. rewrite Hr. simpl.
      destruct partial; simpl; destruct (utf8_valid stderr); simpl;
        do 2 eexists; eexists [EvRun c _];
        (split; [reflexivity|]); (split; [reflexivity|]); right;
        (split; [discriminate|]); eauto.
    + unfold best_effort, try_except, bind, print, subprocess_run, ret. simpl.
      fold c. rewrite Hr. simpl. do 2 eexists. eexists [EvRun c _].
      split; [reflexivity|]. split; [reflexivity|]. right.
      split; [discriminate|]. eauto.
    + unfold best_effort, try_except, bind, print, subprocess_run, ret. simpl.
      fold c. rewrite Hr. simpl. do 2 eexists. eexists [EvRun c _].
      split; [reflexivity|]. split; [reflexivity|]. right.
      split; [discriminate|]. eauto.
Qed.

(** The shape of every job: the passes of the loop, then at most one run
    onto the final path; the log grows by one line exactly when the job
    returns True. *)
Lemma compress_pdf_outline (ocrmypdf : tool) (input_path output_path temp_output : path)
    (target_size_mb : float) (max_quality min_quality : Z) (w : world) :
  with_suffix output_path ".temp.pdf" = Val temp_output ->
  exists r w' evs1 evs2 k,
    compress_pdf ocrmypdf input_path output_path target_size_mb
      max_quality min_quality w = (r, w') /\
    trace w' = trace w ++ evs1 ++ evs2 /\
    map fst (runs evs1) =
      map (fun q => cmd input_path q temp_output) (descending max_quality k) /\
    (k <= passes max_quality min_quality)%nat /\
    ((r = Val true /\
      exists q final_size,
        evs2 = [EvRun (cmd input_path q output_path) (Exit0 final_size)] /\
        failures_log w' =
          failures_log w ++ [best_effort_line input_path final_size target_size_mb] /\
        st_size <$> fs w' !! output_path = Some final_size) \/
     (r <> Val true /\
      failures_log w' = failures_log w /\
      (evs2 = [] \/ exists q res, evs2 = [EvRun (cmd input_path q output_path) res]))).
Proof.
  intros Htemp. unfold compress_pdf, bind, lift. rewrite Htemp.
  pose proof (with_suffix_output_nonempty _ _ Htemp) as Hout.
  apply with_suffix_fresh in Htemp as [Hne Hnil].
  destruct (while_loop_run ocrmypdf input_path output_path temp_output target_size_mb
              min_quality (initial_state max_quality) w) as (ex & w1 & -> & Hrun).
  destruct (loop_qualities _ _ _ _ _ _ Hnil _ _ _ _ Hrun)
    as (evs1 & k & Htr & Hlog & Hq & Hk & _ & Hex).
  simpl in Hq, Hk.
  destruct ex as [[st|b]|e].
  - pose proof (loop_final_success _ _ _ _ _ _ _ _ _ _ Hnil Hrun) as Hfinal.
    simpl in Hfinal.
    destruct (after_loop_outcome ocrmypdf input_path output_path target_size_mb st w1
                Hout Hfinal) as (r & w2 & evs2 & -> & Htr2 & Hcases).
    exists r, w2, evs1, evs2, k.
    split; [reflexivity|].
    split; [rewrite Htr2, Htr, <- app_assoc; reflexivity|].
    split; [assumption|]. split; [assumption|].
    destruct Hcases as [(-> & _ & size & -> & Hlog2 & Hfs)|(Hr & Hlog2 & Hevs)].
    + left. split; [reflexivity|]. exists (best_quality_so_far st), size.
      rewrite Hlog2, Hlog. auto.
    + right. split; [assumption|]. split; [congruence|].
      destruct Hevs as [->|[r0 ->]]; eauto.
  - simpl in Hex. subst b. exists (Val false), w1, evs1, [], k. unfold ret.
    split; [reflexivity|]. rewrite app_nil_r.
    split; [assumption|]. split; [assumption|]. split; [assumption|].
    right. split; [discriminate|]. auto.
  - exists (Exc e), w1, evs1, [], k.
    split; [reflexivity|]. rewrite app_nil_r.
    split; [assumption|]. split; [assumption|]. split; [assumption|].
    right. split; [discriminate|]. auto.
Qed.

Lemma length_runs_levels (evs : list event) (f : Z -> invocation) (levels : list Z) :
  map fst (runs evs) = map f levels -> length (runs evs) = length levels.
Proof.
  intros H. apply (f_equal (@length invocation)) in H. now rewrite !length_map in H.
Qed.

Lemma descending_length (q : Z) (n : nat) : length (descending q n) = n.
Proof. revert q. induction n as [|n IH]; intros q; simpl; [reflexivity | now rewrite IH]. Qed.

(** X1: a job runs the tool at most once per level of its range and at
    most once more: never more than [passes max min + 1] runs, whatever
    the tool answers; with the range 40..5 that [process_pdf] uses, never
    more than 9. *)
Theorem runs_of_a_job_bounded (ocrmypdf : tool) (input_path output_path : path)
    (target_size_mb : float) (max_quality min_quality : Z) (w : world) :
  let run := compress_pdf ocrmypdf input_path output_path target_size_mb
               max_quality min_quality w in
  exists evs,
    trace run.2 = trace w ++ evs /\
    (length (runs evs) <= passes max_quality min_quality + 1)%nat /\
    (max_quality = 40 -> min_quality = 5 -> (length (runs evs) <= 9)%nat).
Proof.
  intros run. subst run.
  destruct (with_suffix output_path ".temp.pdf") as [temp_output|e] eqn:Htemp.
  - destruct (compress_pdf_outline ocrmypdf input_path output_path temp_output
                target_size_mb max_quality min_quality w Htemp)
      as (r & w' & evs1 & evs2 & k & -> & Htr & Hq & Hk & Hcases).
    exists (evs1 ++ evs2). split; [assumption|].
    apply length_runs_levels in Hq. rewrite descending_length in Hq.
    assert (Hlen : (length (runs (evs1 ++ evs2)) <= passes max_quality min_quality + 1)%nat).
    { rewrite runs_app, length_app, Hq.
      destruct Hcases as [(_ & q & size & -> & _)|(_ & _ & [->|(q & res & ->)])];
        simpl; lia. }
    split; [assumption|]. intros -> ->. exact Hlen.
  - unfold compress_pdf, bind, lift. rewrite Htemp. simpl.
    exists []. rewrite app_nil_r. simpl. split; [reflexivity|]. split; intros; lia.
Qed.

(** X2: a job appends to the log at most one line, and it does so exactly
    when it returns True: then the line is the best-effort line for the
    size of the file now at the final path; a job that returns False or
    raises leaves the log as it was. *)
Theorem log_line_iff_true (ocrmypdf : tool) (input_path output_path temp_output : path)
    (target_size_mb : float) (max_quality min_quality : Z) (w : world) :
  with_suffix output_path ".temp.pdf" = Val temp_output ->
  let run := compress_pdf ocrmypdf input_path output_path target_size_mb
               max_quality min_quality w in
  (run.1 = Val true /\
   exists final_size,
     st_size <$> fs run.2 !! output_path = Some final_size /\
     failures_log run.2 =
       failures_log w ++ [best_effort_line input_path final_size target_size_mb]) \/
  (run.1 <> Val true /\ failures_log run.2 = failures_log w).
Proof.
  intros Htemp run. subst run.
  destruct (compress_pdf_outline ocrmypdf input_path output_path temp_output
              target_size_mb max_quality min_quality w Htemp)
    as (r & w' & evs1 & evs2 & k & -> & _ & _ & _ & Hcases). simpl.
  destruct Hcases as [(-> & q & size & _ & Hlog & Hfs)|(Hr & Hlog & _)].
  - left. eauto.
  - right. auto.
Qed.

Lemma log_line_iff_true_witness :
  let run := compress_pdf fits_at_35 ["in"; "a.pdf"] ["out"; "a.pdf"]
               default_target_size_mb 40 5 empty_world in
  (run.1 = Val true /\
   exists final_size,
     st_size <$> fs run.2 !! ["out"; "a.pdf"] = Some final_size /\
     failures_log run.2 =
       failures_log empty_world ++
       [best_effort_line ["in"; "a.pdf"] final_size default_target_size_mb]) \/
  (run.1 <> Val true /\ failures_log run.2 = failures_log empty_world).
Proof.
  apply (log_line_iff_true fits_at_35 ["in"; "a.pdf"] ["out"; "a.pdf"]
           ["out"; "a.temp.pdf"] default_target_size_mb 40 5 empty_world).
  reflexivity.
Defined.

(** X3: with an empty range (max_quality below min_quality) the job runs
    nothing: it prints that the file could not be compressed and returns
    False, with the file system, the history and the log unchanged. *)
Theorem empty_range_does_nothing (ocrmypdf : tool) (input_path output_path temp_output : path)
    (target_size_mb : float) (max_quality min_quality : Z) (w : world) :
  with_suffix output_path ".temp.pdf" = Val temp_output ->
  max_quality < min_quality ->
  let run := compress_pdf ocrmypdf input_path output_path target_size_mb
               max_quality min_quality w in
  run.1 = Val false /\
  fs run.2 = fs w /\ trace run.2 = trace w /\ failures_log run.2 = failures_log w /\
  stdout run.2 =
    stdout w ++ ["Error: Could not compress " +:+ path_str input_path
                 +:+ " at any quality level."].
Proof.
  intros Htemp Hlt run. subst run.
  unfold compress_pdf, bind, lift. rewrite Htemp, while_loop_step. simpl.
  destruct (Z.leb_spec min_quality max_quality) as [?|_]; [lia|].
  unfold after_loop. simpl. repeat split.
Qed.

Lemma empty_range_does_nothing_witness :
  let run := compress_pdf always_small ["in"; "a.pdf"] ["out"; "a.pdf"]
               default_target_size_mb 5 40 empty_world in
  run.1 = Val false /\
  fs run.2 = fs empty_world /\ trace run.2 = trace empty_world /\
  failures_log run.2 = failures_log empty_world /\
  stdout run.2 =
    stdout empty_world ++ ["Error: Could not compress " +:+ path_str ["in"; "a.pdf"]
                           +:+ " at any quality level."].
Proof.
  apply (empty_range_does_nothing always_small ["in"; "a.pdf"] ["out"; "a.pdf"]
           ["out"; "a.temp.pdf"] default_target_size_mb 5 40 empty_world).
  - reflexivity.
  - lia.
Defined.

(** ** Which level the best-effort run takes *)

Lemma fold_best_int_first attempts best s0 :
  exists b sb,
    fold_best attempts best (Int s0) = (b, Int sb) /\
    ((b = best /\ sb = s0 /\ Forall (fun a => s0 <= a.2) attempts) \/
     (sb < s0 /\
      exists pre post,
        attempts = pre ++ (b, sb) :: post /\
        Forall (fun a => sb < a.2) pre /\
        Forall (fun a => sb <= a.2) post)).
Proof.
  revert best s0. induction attempts as [|[q size] rest IH]; intros best s0; simpl.
  - exists best, s0. split; [reflexivity|]. left. auto.
  - destruct (Z.ltb_spec size s0) as [Hlt|Hge].
    + destruct (IH q size) as (b & sb & -> & [(-> & -> & Hall)|(Hsb & pre & post & -> & Hpre & Hpost)]).
      * exists q, size. split; [reflexivity|]. right. split; [assumption|].
        exists [], rest. auto.
      * exists b, sb. split; [reflexivity|]. right. split; [lia|].
        exists ((q, size) :: pre), post. split; [reflexivity|]. split; [|assumption].
        constructor; [simpl; lia | assumption].
    + destruct (IH best s0) as (b & sb & -> & [(-> & -> & Hall)|(Hsb & pre & post & -> & Hpre & Hpost)]).
      * exists best, s0. split; [reflexivity|]. left. split; [reflexivity|].
        split; [reflexivity|]. constructor; [simpl; lia | assumption].
      * exists b, sb. split; [reflexivity|]. right. split; [assumption|].
        exists ((q, size) :: pre), post. split; [reflexivity|]. split; [|assumption].
        constructor; [simpl; lia | assumption].
Qed.

Lemma fold_best_inf_first attempts best :
  attempts <> [] ->
  exists b sb pre post,
    fold_best attempts best Inf = (b, Int sb) /\
    attempts = pre ++ (b, sb) :: post /\
    Forall (fun a => sb < a.2) pre /\
    Forall (fun a => sb <= a.2) post.
Proof.
  destruct attempts as [|[q size] rest]; [congruence|]. intros _. simpl.
  destruct (fold_best_int_first rest q size)
    as (b & sb & -> & [(-> & -> & Hall)|(Hsb & pre & post & -> & Hpre & Hpost)]).
  - exists q, size, [], rest. auto.
  - exists b, sb, ((q, size) :: pre), post. split; [reflexivity|].
    split; [reflexivity|]. split; [|assumption].
    constructor; [simpl; lia | assumption].
Qed.

Lemma descending_below (q : Z) (n : nat) (x : Z) : In x (descending q n) -> x <= q.
Proof.
  revert q. induction n as [|n IH]; intros q; simpl; [intros []|].
  intros [<-|Hin]; [lia|]. apply IH in Hin. lia.
Qed.

(** In a descending list of levels, what comes before a level is above it
    and what comes after is below. *)
Lemma descending_split (q : Z) (n : nat) (pre post : list Z) (b : Z) :
  pre ++ b :: post = descending q n ->
  (forall x, In x pre -> b < x) /\ (forall x, In x post -> x < b).
Proof.
  revert q pre. induction n as [|n IH]; intros q pre H; simpl in H.
  - destruct pre; discriminate.
  - destruct pre as [|p pre]; simpl in H; injection H as Hhead Htail.
    + subst b. split; [intros x []|].
      intros x Hx. rewrite Htail in Hx. apply descending_below in Hx. lia.
    + subst p. destruct (IH _ _ Htail) as [Hhigh Hlow]. split; [|assumption].
      intros x [<-|Hx]; [|auto].
      assert (In b (descending (q - 5) n)) as Hb
        by (rewrite <- Htail; apply in_or_app; right; now left).
      apply descending_below in Hb. lia.
Qed.

(** X4: when every run succeeds and every output of a pass is over the
    target, the level of the best-effort run is the first level, in the
    order of the passes (so the highest), whose size is the smallest:
    every earlier pass gave a strictly larger file, no later pass a
    smaller one. *)
Theorem best_effort_takes_first_smallest (ocrmypdf : tool)
    (input_path output_path temp_output : path)
    (target_size_mb : float) (max_quality min_quality : Z) (w : world) :
  with_suffix output_path ".temp.pdf" = Val temp_output ->
  0 <= min_quality <= max_quality ->
  (forall tr c, exists size,
      ocrmypdf tr c = Exit0 size /\
      (inv_output c = temp_output -> within_target size target_size_mb = false)) ->
  let run := compress_pdf ocrmypdf input_path output_path target_size_mb
               max_quality min_quality w in
  exists earlier later best_quality best_size final_size evs,
    trace run.2 = trace w ++ evs /\
    runs evs =
      map (fun a => (cmd input_path a.1 temp_output, Exit0 a.2))
        (earlier ++ (best_quality, best_size) :: later)
      ++ [(cmd input_path best_quality output_path, Exit0 final_size)] /\
    Forall (fun a => best_size < a.2 /\ best_quality < a.1) earlier /\
    Forall (fun a => best_size <= a.2 /\ a.1 < best_quality) later.
Proof.
  intros Htemp Hrange Hover run. subst run.
  unfold compress_pdf, bind, lift. rewrite Htemp.
  pose proof (with_suffix_output_nonempty _ _ Htemp) as Hout_ne.
  apply with_suffix_fresh in Htemp as [Hne Hnil].
  destruct (while_loop_run ocrmypdf input_path output_path temp_output target_size_mb
              min_quality (initial_state max_quality) w) as (ex & w' & -> & Hrun).
  destruct (loop_all_oversized _ _ _ _ _ _ Hnil _ _ _ _ Hover Hne Hrun)
    as (st' & attempts & evs & -> & Hfinal & Htr & Hruns & Hq & Hbest & _).
  simpl in Hfinal, Hq, Hbest.
  assert (Hsome : attempts <> []).
  { intros ->. rewrite (passes_step max_quality min_quality) in Hq by lia. discriminate. }
  destruct (fold_best_inf_first attempts (-1) Hsome)
    as (b & sb & pre & post & Hfold & Hsplit & Hpre & Hpost).
  rewrite Hfold in Hbest. injection Hbest as Hb Hm.
  assert (Hb0 : 0 <= b).
  { apply Z.le_trans with min_quality; [lia|].
    apply (descending_bound min_quality b (passes max_quality min_quality) max_quality);
      [lia|].
    rewrite <- Hq, Hsplit, map_app. apply in_or_app. right. now left. }
  unfold after_loop. rewrite Hfinal, Hb. simpl.
  destruct (Z.eqb_spec b (-1)) as [?|_]; [lia|]. simpl.
  destruct (Hover (trace w') (cmd input_path b output_path)) as (final_size & Hr & _).
  destruct (best_effort_completed ocrmypdf input_path output_path target_size_mb
              b final_size w' Hout_ne Hr) as (w'' & -> & Htr' & _).
  exists pre, post, b, sb, final_size,
    (evs ++ [EvRun (cmd input_path b output_path) (Exit0 final_size)]).
  simpl. split; [rewrite Htr', Htr, <- app_assoc; reflexivity|].
  split; [rewrite runs_app, Hruns, Hsplit; reflexivity|].
  rewrite Hsplit, map_app in Hq. simpl in Hq.
  destruct (descending_split _ _ _ _ _ Hq) as [Hhigh Hlow].
  split.
  - apply List.Forall_forall. intros a Ha. split.
    + rewrite List.Forall_forall in Hpre. auto.
    + apply Hhigh. now apply in_map.
  - apply List.Forall_forall. intros a Ha. split.
    + rewrite List.Forall_forall in Hpost. auto.
    + apply Hlow. now apply in_map.
Qed.

Lemma best_effort_takes_first_smallest_witness :
  let run := compress_pdf never_small_enough ["in"; "a.pdf"] ["out"; "a.pdf"]
               default_target_size_mb 40 5 empty_world in
  exists earlier later best_quality best_size final_size evs,
    trace run.2 = trace empty_world ++ evs /\
    runs evs =
      map (fun a => (cmd ["in"; "a.pdf"] a.1 ["out"; "a.temp.pdf"], Exit0 a.2))
        (earlier ++ (best_quality, best_size) :: later)
      ++ [(cmd ["in"; "a.pdf"] best_quality ["out"; "a.pdf"], Exit0 final_size)] /\
    Forall (fun a => best_size < a.2 /\ best_quality < a.1) earlier /\
    Forall (fun a => best_size <= a.2 /\ a.1 < best_quality) later.
Proof.
  apply (best_effort_takes_first_smallest never_small_enough ["in"; "a.pdf"]
           ["out"; "a.pdf"] ["out"; "a.temp.pdf"] default_target_size_mb 40 5 empty_world).
  - reflexivity.
  - lia.
  - intros tr c. exists (2000000 + Z.max 0 (jpeg_quality c)). split; [reflexivity|].
    intros _. apply not_true_is_false. intros H. apply Qle_bool_iff in H.
    unfold Qle in H. simpl in H. lia.
Defined.

(** ** Where the files of a job are *)

Lemma substring_app_tail (a b : string) :
  substring (String.length a) (String.length b) (a +:+ b) = b.
Proof.
  induction a as [|x a IH]; [|rewrite string_app_cons; simpl; exact IH].
  rewrite string_app_nil. simpl.
  induction b as [|y b IHb]; simpl; [reflexivity | now rewrite IHb].
Qed.

Lemma ends_with_app (a b : string) : ends_with b (a +:+ b) = true.
Proof.
  unfold ends_with. rewrite string_length_app.
  replace (String.length a + String.length b - String.length b)%nat
    with (String.length a) by lia.
  rewrite substring_app_tail, String.eqb_refl.
  apply andb_true_intro. split; [|reflexivity]. apply Nat.leb_le. lia.
Qed.

(** X5: the temporary file of a job is a sibling of its final file: same
    directory, a different name, and the name ends in [.temp.pdf]. *)
Theorem temp_output_is_a_sibling (output_path temp_output : path) :
  with_suffix output_path ".temp.pdf" = Val temp_output ->
  parent temp_output = parent output_path /\
  name temp_output <> name output_path /\
  ends_with ".temp.pdf" (name temp_output) = true.
Proof.
  unfold with_suffix. destruct (String.eqb (name output_path) "") eqn:Hn; [discriminate|].
  intros [= <-]. split; [|split].
  - unfold parent. apply removelast_last.
  - unfold name at 1. rewrite last_last. apply with_suffix_name_changes.
  - unfold name at 1. rewrite last_last.
    destruct (String.eqb (suffix (name output_path)) ""); apply ends_with_app.
Qed.

Lemma temp_output_is_a_sibling_witness :
  parent ["dst"; "sub"; "report.v2.temp.pdf"] = parent ["dst"; "sub"; "report.v2.pdf"] /\
  name ["dst"; "sub"; "report.v2.temp.pdf"] <> name ["dst"; "sub"; "report.v2.pdf"] /\
  ends_with ".temp.pdf" (name ["dst"; "sub"; "report.v2.temp.pdf"]) = true.
Proof.
  apply (temp_output_is_a_sibling ["dst"; "sub"; "report.v2.pdf"]
           ["dst"; "sub"; "report.v2.temp.pdf"]).
  reflexivity.
Defined.

Lemma below_split (source_path p : path) :
  below source_path p = true ->
  p = source_path ++ drop (length source_path) p /\ drop (length source_path) p <> [].
Proof.
  revert p. induction source_path as [|b base IH]; intros [|c p]; simpl;
    try discriminate.
  - intros _. split; [reflexivity | discriminate].
  - intros H. apply andb_prop in H as [Hbc Hrest]. apply String.eqb_eq in Hbc as ->.
    destruct (IH _ Hrest) as [Heq Hne]. split; [|assumption]. now rewrite <- Heq.
Qed.

Lemma relative_to_app (base rel : path) : relative_to (base ++ rel) base = Val rel.
Proof.
  induction base as [|b base IH]; simpl; [now destruct rel|].
  now rewrite String.eqb_refl.
Qed.

Lemma last_app_nonempty (a b : path) (d : string) :
  b <> [] -> List.last (a ++ b) d = List.last b d.
Proof.
  intros Hb. destruct (exists_last Hb) as (b' & x & ->).
  now rewrite app_assoc, !last_last.
Qed.

(** X6: the output path mirrors the input path: for a file below the
    source, its output lies at the same relative path below the
    destination and has the same file name. *)
Theorem mirrored_keeps_relative_path (source_path dest_path input_file : path) :
  below source_path input_file = true ->
  relative_to (mirrored source_path dest_path input_file) dest_path =
    relative_to input_file source_path /\
  name (mirrored source_path dest_path input_file) = name input_file.
Proof.
  intros Hb. destruct (below_split _ _ Hb) as [Heq Hne].
  unfold mirrored, joinpath. split.
  - now rewrite relative_to_app, (below_relative_to _ _ Hb).
  - unfold name. rewrite Heq at 2. now rewrite !last_app_nonempty by assumption.
Qed.

Lemma mirrored_keeps_relative_path_witness :
  relative_to (mirrored ["src"] ["dst"] ["src"; "sub"; "b.pdf"]) ["dst"] =
    relative_to ["src"; "sub"; "b.pdf"] ["src"] /\
  name (mirrored ["src"] ["dst"] ["src"; "sub"; "b.pdf"]) = name ["src"; "sub"; "b.pdf"].
Proof.
  apply (mirrored_keeps_relative_path ["src"] ["dst"] ["src"; "sub"; "b.pdf"]).
  reflexivity.
Defined.

(** X7: two different files below the source never get the same output
    path. *)
Theorem mirrored_injective (source_path dest_path p q : path) :
  below source_path p = true ->
  below source_path q = true ->
  p <> q ->
  mirrored source_path dest_path p <> mirrored source_path dest_path q.
Proof.
  intros Hp Hq Hpq H. apply Hpq.
  unfold mirrored, joinpath in H. apply app_inv_head in H.
  destruct (below_split _ _ Hp) as [Hpe _]. destruct (below_split _ _ Hq) as [Hqe _].
  transitivity (source_path ++ drop (length source_path) p); [exact Hpe|].
  rewrite H. symmetry. exact Hqe.
Qed.

Lemma mirrored_injective_witness :
  mirrored ["src"] ["dst"] ["src"; "a.pdf"] <>
  mirrored ["src"] ["dst"] ["src"; "sub"; "a.pdf"].
Proof.
  apply (mirrored_injective ["src"] ["dst"] ["src"; "a.pdf"] ["src"; "sub"; "a.pdf"]).
  - reflexivity.
  - reflexivity.
  - discriminate.
Defined.

(** ** The counters of the batch *)

Lemma filter_length_Permutation {A} (f : A -> bool) (l l' : list A) :
  Permutation l l' -> length (List.filter f l) = length (List.filter f l').
Proof.
  induction 1 as [|x l l' _ IH|x y l|l l' l'' _ IH1 _ IH2]; simpl.
  - reflexivity.
  - destruct (f x); simpl; now rewrite IH.
  - destruct (f x), (f y); reflexivity.
  - now rewrite IH1.
Qed.

(** X8: the counters do not depend on the order in which the futures
    complete: collecting the same futures in any other order gives the
    same processed and failed counts. *)
Theorem counts_independent_of_completion_order (futures futures' : list future)
    (total processed failed : nat) (w w0 : world) :
  Permutation futures futures' ->
  (as_completed_loop futures total processed failed w).1 =
  (as_completed_loop futures' total processed failed w0).1.
Proof.
  intros Hperm.
  destruct (as_completed_loop_counts futures total processed failed w)
    as (p1 & f1 & w1 & -> & Hp1 & Hf1 & _).
  destruct (as_completed_loop_counts futures' total processed failed w0)
    as (p2 & f2 & w2 & -> & Hp2 & Hf2 & _).
  simpl. rewrite Hp1, Hf1, Hp2, Hf2.
  now rewrite !(filter_length_Permutation _ _ _ Hperm).
Qed.

Lemma counts_independent_of_completion_order_witness :
  (as_completed_loop [Returned true; Returned false; Raised (Exception "boom")]
     3 0 0 empty_world).1 =
  (as_completed_loop [Raised (Exception "boom"); Returned true; Returned false]
     3 0 0 empty_world).1.
Proof.
  apply (counts_independent_of_completion_order
           [Returned true; Returned false; Raised (Exception "boom")]
           [Raised (Exception "boom"); Returned true; Returned false]
           3 0 0 empty_world empty_world).
  apply Permutation_sym.
  exact (Permutation_cons_append [Returned true; Returned false]
           (Raised (Exception "boom"))).
Defined.

(** A directory that exists is accepted as it is. *)
Lemma mkdir_parents_existing (p : path) (w : world) :
  is_dir (fs w) p = true -> mkdir_parents p w = (Val tt, w).
Proof.
  intros Hdir.
  assert (Hos : forall q w0, is_dir (fs w0) q = true ->
                os_mkdir q w0 = (Exc (Exception ("File exists: " +:+ path_str q)), w0)).
  { intros q w0 Hq. unfold os_mkdir. unfold is_dir in Hq.
    destruct (lookup_path (fs w0) q); [reflexivity | discriminate]. }
  funelim (mkdir_parents p w); try discriminate;
    match goal with
    | H : os_mkdir ?q ?w0 = _ |- _ =>
        pose proof H as Hcall; rewrite (Hos q w0 Hdir) in Hcall;
        inversion Hcall; subst
    end.
  now rewrite Hdir.
Qed.

(** X9: an output that exists but is older than its input is submitted,
    yet not made again: the task finds the file, prints that it skips it
    and returns True, with no run of the tool and no change to the file
    system or the log. *)
Theorem stale_output_is_not_regenerated (ocrmypdf : tool) (input_file output_file : path)
    (si so : stat_result) (w : world) :
  lookup_path (fs w) input_file = Some si ->
  fs w !! output_file = Some so ->
  output_file <> [] ->
  st_mtime so < st_mtime si ->
  is_dir (fs w) (parent output_file) = true ->
  up_to_date input_file output_file w = (Val false, w) /\
  let task := process_pdf ocrmypdf input_file output_file w in
  task.1 = Val true /\
  fs task.2 = fs w /\ trace task.2 = trace w /\ failures_log task.2 = failures_log w /\
  stdout task.2 =
    stdout w ++ ["Skipping " +:+ path_str input_file +:+ " - output already exists"].
Proof.
  intros Hin Hout Hne Hold Hdir. split.
  - rewrite up_to_date_current by eauto. unfold is_current.
    rewrite lookup_path_cons by assumption. rewrite Hout, Hin.
    destruct (Z.leb_spec (st_mtime si) (st_mtime so)); [lia | reflexivity].
  - assert (Htask : process_pdf ocrmypdf input_file output_file w =
                    (Val true,
                     (print ("Skipping " +:+ path_str input_file
                             +:+ " - output already exists") w).2)).
    { unfold process_pdf, try_except. unfold bind at 1.
      rewrite (mkdir_parents_existing _ _ Hdir).
      unfold bind at 1, exists_. rewrite lookup_path_cons by assumption. rewrite Hout.
      reflexivity. }
    rewrite Htask. simpl. repeat split.
Qed.

Lemma stale_output_is_not_regenerated_witness :
  up_to_date ["src"; "a.pdf"] ["dst"; "a.pdf"] stale_tree = (Val false, stale_tree) /\
  let task := process_pdf always_small ["src"; "a.pdf"] ["dst"; "a.pdf"] stale_tree in
  task.1 = Val true /\
  fs task.2 = fs stale_tree /\ trace task.2 = trace stale_tree /\
  failures_log task.2 = failures_log stale_tree /\
  stdout task.2 =
    stdout stale_tree ++
    ["Skipping " +:+ path_str ["src"; "a.pdf"] +:+ " - output already exists"].
Proof.
  apply (stale_output_is_not_regenerated always_small ["src"; "a.pdf"] ["dst"; "a.pdf"]
           {| st_isdir := false; st_size := 10; st_mtime := 5 |}
           {| st_isdir := false; st_size := 3; st_mtime := 4 |} stale_tree).
  - reflexivity.
  - reflexivity.
  - discriminate.
  - simpl. lia.
  - reflexivity.
Defined.

Lemma filter_all_true {A} (f : A -> bool) (l : list A) :
  Forall (fun x => f x = true) l ->
  List.filter f l = l /\ List.filter (fun x => negb (f x)) l = [].
Proof.
  induction 1 as [|x l Hx _ [IH1 IH2]]; simpl; [auto|].
  rewrite Hx. simpl. now rewrite IH1, IH2.
Qed.

(** X10: when the output of every file found is current, the batch runs
    no task: all files are counted as skipped, none as processed or
    failed, and the file system, the history and the log are unchanged. *)
Theorem batch_over_current_outputs_does_nothing (ocrmypdf : tool)
    (source_path dest_path : path) (files : list path) (w : world) :
  glob_pdf source_path w = (Val files, w) ->
  Forall (fun p => is_current (fs w) p (mirrored source_path dest_path p) = true) files ->
  let run := run_batch ocrmypdf source_path dest_path w in
  run.1 = Val {| total_files := length files; processed_count := 0;
                 failed_count := 0; skipped_count := length files |} /\
  fs run.2 = fs w /\ trace run.2 = trace w /\ failures_log run.2 = failures_log w.
Proof.
  intros Hglob Hcur run. subst run.
  destruct (glob_pdf_found source_path w) as (files' & Hglob' & Hfiles).
  rewrite Hglob in Hglob'. injection Hglob' as <-.
  destruct (filter_all_true _ _ Hcur) as [Hall Hnone].
  set (w1 := (print ("Found " +:+ pretty (length files) +:+ " PDF files to process") w).2).
  pose proof (submit_loop_found source_path dest_path files w1 0 [] Hfiles) as Hsubmit.
  simpl in Hsubmit. rewrite Hall, Hnone in Hsubmit. simpl in Hsubmit.
  assert (Hrun : run_batch ocrmypdf source_path dest_path w =
                 (Val {| total_files := length files; processed_count := 0;
                         failed_count := 0; skipped_count := length files |}, w1)).
  { unfold run_batch, pool_block. unfold bind at 1. rewrite Hglob.
    unfold bind at 1. change (print _ w) with (Val tt, w1).
    unfold bind at 1. rewrite Hsubmit. reflexivity. }
  rewrite Hrun. simpl. auto.
Qed.

Lemma batch_over_current_outputs_does_nothing_witness :
  let run := run_batch always_small ["src"] ["dst"] current_tree in
  run.1 = Val {| total_files := length [["src"; "a.pdf"]]; processed_count := 0;
                 failed_count := 0; skipped_count := length [["src"; "a.pdf"]] |} /\
  fs run.2 = fs current_tree /\ trace run.2 = trace current_tree /\
  failures_log run.2 = failures_log current_tree.
Proof.
  apply (batch_over_current_outputs_does_nothing always_small ["src"] ["dst"]
           [["src"; "a.pdf"]] current_tree).
  - reflexivity.
  - repeat constructor.
Defined.

(** ** The temporary file is not left behind *)

Lemma is_dir_false_lookup (f : gmap path stat_result) (p : path) :
  is_dir f p = false -> p <> [] /\ is_dir f p = false.
Proof. intros H. split; [|assumption]. intros ->. discriminate. Qed.

(** One pass, seen at the temporary and the final path: the temporary
    file is gone after the pass, unless the handler of a nonzero exit
    raised on a standard error that is not UTF-8. *)
Lemma attempt_keeps_temp_free (ocrmypdf : tool) (input_path output_path temp_output : path)
    (target_size_mb : float) st w res w' :
  temp_output <> [] ->
  temp_output <> output_path ->
  attempt ocrmypdf input_path output_path target_size_mb temp_output st w = (res, w') ->
  is_dir (fs w) output_path = false ->
  fs w !! temp_output = None ->
  (fs w' !! temp_output = None /\ is_dir (fs w') output_path = false) \/
  (exists e c stderr partial,
      res = Exc e /\ last (trace w') = Some (EvRun c (ExitNonzero stderr partial)) /\
      utf8_valid stderr = false).
Proof.
  intros Hnil Hne Hat Hdir Hfree.
  destruct (is_dir_false_lookup _ _ Hdir) as [Hout _].
  assert (Hsame : forall f : gmap path stat_result,
             f !! temp_output = None -> f !! output_path = fs w !! output_path ->
             f !! temp_output = None /\ is_dir f output_path = false).
  { intros f Ht Ho. split; [assumption|]. unfold is_dir in *.
    rewrite lookup_path_cons in * by assumption. now rewrite Ho. }
  destruct (ocrmypdf (trace w) (cmd input_path (current_quality st) temp_output))
    as [size|stderr partial| |msg] eqn:Hr.
  - left. destruct (within_target size target_size_mb) eqn:Hfit.
    + (* the output is moved onto the final path *)
      revert Hat. unfold attempt, try_except, attempt_try.
      unfold bind at 1, subprocess_run. rewrite Hr. simpl.
      unfold bind at 1, stat. simpl.
      rewrite lookup_path_cons by assumption. rewrite lookup_insert_eq. simpl.
      rewrite Hfit. unfold bind at 1, shutil_move. simpl.
      rewrite lookup_path_cons by assumption. rewrite lookup_insert_eq.
      assert (Hd : is_dir (<[temp_output:={| st_isdir := false; st_size := size;
                                            st_mtime := clock w + 1 |}]> (fs w))
                     output_path = false).
      { unfold is_dir in *. rewrite lookup_path_cons in * by assumption.
        now rewrite lookup_insert_ne. }
      rewrite Hd. simpl. intros [= _ <-]. simpl. split.
      * rewrite lookup_insert_ne by congruence. apply lookup_delete_eq.
      * unfold is_dir. rewrite lookup_path_cons by assumption.
        now rewrite lookup_insert_eq.
    + destruct (attempt_spec ocrmypdf input_path output_path temp_output
                  target_size_mb Hnil st w) as (res' & w1 & post & Heq & Hcase & _).
      rewrite Hat in Heq. injection Heq as <- <-. rewrite Hr in Hcase.
      inversion Hcase; subst; try congruence.
      match goal with H : fs w' = _ |- _ => rewrite H end.
      apply Hsame; [apply lookup_delete_eq | now apply lookup_delete_ne].
  - destruct (attempt_spec ocrmypdf input_path output_path temp_output
                target_size_mb Hnil st w) as (res' & w1 & post & Heq & Hcase & Htr & _).
    rewrite Hat in Heq. injection Heq as <- <-. rewrite Hr in Hcase, Htr.
    inversion Hcase; subst.
    + left. match goal with H : fs w' = _ |- _ => rewrite H end.
      apply Hsame; [apply lookup_delete_eq | now apply lookup_delete_ne].
    + exfalso. match goal with H : is_dir (fs w) temp_output = true |- _ =>
        unfold is_dir in H; rewrite lookup_path_cons in H by assumption;
        rewrite Hfree in H; discriminate end.
    + right. do 4 eexists. split; [reflexivity|]. split; [|eassumption].
      rewrite Htr. apply last_snoc.
  - left. destruct (attempt_spec ocrmypdf input_path output_path temp_output
                target_size_mb Hnil st w) as (res' & w1 & post & Heq & Hcase & _).
    rewrite Hat in Heq. injection Heq as <- <-. rewrite Hr in Hcase.
    inversion Hcase; subst.
    match goal with H : fs w' = _ |- _ => rewrite H end. now apply Hsame.
  - left. destruct (attempt_spec ocrmypdf input_path output_path temp_output
                target_size_mb Hnil st w) as (res' & w1 & post & Heq & Hcase & _).
    rewrite Hat in Heq. injection Heq as <- <-. rewrite Hr in Hcase.
    inversion Hcase; subst.
    match goal with H : fs w' = _ |- _ => rewrite H end. now apply Hsame.
Qed.

Lemma loop_keeps_temp_free (ocrmypdf : tool) (input_path output_path temp_output : path)
    (target_size_mb : float) (min_quality : Z) st w ex w' :
  temp_output <> [] ->
  temp_output <> output_path ->
  loop_run ocrmypdf input_path output_path temp_output target_size_mb min_quality
    st w ex w' ->
  is_dir (fs w) output_path = false ->
  fs w !! temp_output = None ->
  (fs w' !! temp_output = None /\ is_dir (fs w') output_path = false) \/
  (exists e c stderr partial,
      ex = Exc e /\ last (trace w') = Some (EvRun c (ExitNonzero stderr partial)) /\
      utf8_valid stderr = false).
Proof.
  intros Hnil Hne.
  induction 1 as [st w Hlt | st w st' w1 ex w2 Hge Hat Hrun IH
                 | st w st' w1 Hge Hat | st w b w1 Hge Hat | st w e w1 Hge Hat];
    intros Hdir Hfree; auto;
    destruct (attempt_keeps_temp_free _ _ _ _ _ _ _ _ _ Hnil Hne Hat Hdir Hfree)
      as [[? ?]|(e' & c & stderr & partial & Hres & ? & ?)];
    auto; try discriminate.
  right. injection Hres as <-. eauto 8.
Qed.

(** The code after the loop touches the final path only. *)
Lemma after_loop_elsewhere (ocrmypdf : tool) (input_path output_path : path)
    (target_size_mb : float) (st : search_state) (w : world) (p : path) :
  p <> output_path ->
  fs (after_loop ocrmypdf input_path output_path target_size_mb st w).2 !! p = fs w !! p.
Proof.
  intros Hp. unfold after_loop.
  destruct (negb (final_success st) && negb (best_quality_so_far st =? -1))%bool.
  - unfold best_effort, try_except, bind, print, subprocess_run, ret, lift, decode. simpl.
    destruct (ocrmypdf (trace w) (cmd input_path (best_quality_so_far st) output_path))
      as [size|stderr [size|]| |msg]; simpl;
      try destruct (utf8_valid stderr); simpl;
      try (unfold stat, log_write; simpl;
           match goal with |- context [lookup_path ?f ?q] => destruct (lookup_path f q) end;
           simpl);
      try reflexivity; now apply lookup_insert_ne.
  - destruct (negb (final_success st) && (best_quality_so_far st =? -1))%bool;
      reflexivity.
Qed.

(** X11: a job that starts with no file at its temporary path and a
    final path that is not a directory ends with no file at the temporary
    path, whatever the tool answers, with one exception: the job raised,
    and the last thing it did was a run of the tool that exited with a
    nonzero status and a standard error that is not UTF-8 (the handler
    raises on the decoding before it deletes the file). *)
Theorem temp_output_not_left_behind (ocrmypdf : tool)
    (input_path output_path temp_output : path)
    (target_size_mb : float) (max_quality min_quality : Z) (w : world) :
  with_suffix output_path ".temp.pdf" = Val temp_output ->
  is_dir (fs w) output_path = false ->
  fs w !! temp_output = None ->
  let run := compress_pdf ocrmypdf input_path output_path target_size_mb
               max_quality min_quality w in
  fs run.2 !! temp_output = None \/
  (exists e c stderr partial,
      run.1 = Exc e /\
      last (trace run.2) = Some (EvRun c (ExitNonzero stderr partial)) /\
      utf8_valid stderr = false).
Proof.
  intros Htemp Hdir Hfree run. subst run.
  unfold compress_pdf, bind, lift. rewrite Htemp.
  apply with_suffix_fresh in Htemp as [Hne Hnil].
  destruct (while_loop_run ocrmypdf input_path output_path temp_output target_size_mb
              min_quality (initial_state max_quality) w) as (ex & w1 & -> & Hrun).
  destruct (loop_keeps_temp_free _ _ _ _ _ _ _ _ _ _ Hnil Hne Hrun Hdir Hfree)
    as [[Hfree1 _]|(e & c & stderr & partial & -> & Hr & Hutf)].
  - left. destruct ex as [[st|b]|e]; simpl; try assumption.
    now rewrite after_loop_elsewhere.
  - right. simpl. eauto 8.
Qed.

Lemma temp_output_not_left_behind_witness :
  let run := compress_pdf fits_at_35 ["in"; "a.pdf"] ["out"; "a.pdf"]
               default_target_size_mb 40 5 empty_world in
  fs run.2 !! ["out"; "a.temp.pdf"] = None \/
  (exists e c stderr partial,
      run.1 = Exc e /\
      last (trace run.2) = Some (EvRun c (ExitNonzero stderr partial)) /\
      utf8_valid stderr = false).
Proof.
  apply (temp_output_not_left_behind fits_at_35 ["in"; "a.pdf"] ["out"; "a.pdf"]
           ["out"; "a.temp.pdf"] default_target_size_mb 40 5 empty_world);
    reflexivity.
Defined.

(** ** What a batch runs the tool on *)

Lemma runs_of_levels (l : list (invocation * run_result)) (f : Z -> invocation)
    (levels : list Z) :
  map fst l = map f levels -> Forall (fun cr => exists q, cr.1 = f q) l.
Proof.
  revert levels. induction l as [|cr l IH]; intros [|q levels] H; try discriminate;
    constructor.
  - injection H as H _. eauto.
  - injection H as _ H. eauto.
Qed.

Lemma runs_of_mkdirs (evs : list event) :
  Forall (fun e => exists q, e = EvMkdir q) evs -> runs evs = [].
Proof. induction 1 as [|e evs [q ->] _ IH]; simpl; auto. Qed.

(** The runs of one job belong to it, and there are at most 9. *)
Lemma compress_pdf_default_runs (ocrmypdf : tool) (input_path output_path : path) (w : world) :
  exists r w' evs,
    compress_pdf ocrmypdf input_path output_path default_target_size_mb 40 5 w = (r, w') /\
    trace w' = trace w ++ evs /\
    Forall (run_of_task (input_path, output_path)) (runs evs) /\
    (length (runs evs) <= 9)%nat.
Proof.
  destruct (with_suffix output_path ".temp.pdf") as [temp_output|e] eqn:Htemp.
  - destruct (compress_pdf_outline ocrmypdf input_path output_path temp_output
                default_target_size_mb 40 5 w Htemp)
      as (r & w' & evs1 & evs2 & k & Heq & Htr & Hq & Hk & Hcases).
    exists r, w', (evs1 ++ evs2). split; [assumption|]. split; [assumption|].
    rewrite runs_app. split.
    + apply Forall_app. split.
      * apply runs_of_levels in Hq. eapply List.Forall_impl; [|exact Hq].
        intros cr [q Hcr]. unfold run_of_task. rewrite Hcr. simpl. auto.
      * destruct Hcases as [(_ & q & size & -> & _)|(_ & _ & [->|(q & res & ->)])];
          simpl; repeat constructor; simpl; auto.
    + apply length_runs_levels in Hq. rewrite descending_length in Hq.
      rewrite length_app, Hq. change (passes 40 5) with 8%nat in Hk.
      destruct Hcases as [(_ & q & size & -> & _)|(_ & _ & [->|(q & res & ->)])];
        simpl; lia.
  - unfold compress_pdf, bind, lift. rewrite Htemp. simpl.
    exists (Exc e), w, []. rewrite app_nil_r. simpl.
    split; [reflexivity|]. split; [reflexivity|]. split; [constructor | lia].
Qed.

Lemma process_pdf_runs (ocrmypdf : tool) (input_path output_path : path) (w : world) :
  exists b w' evs,
    process_pdf ocrmypdf input_path output_path w = (Val b, w') /\
    trace w' = trace w ++ evs /\
    Forall (run_of_task (input_path, output_path)) (runs evs) /\
    (length (runs evs) <= 9)%nat.
Proof.
  unfold process_pdf, try_except. unfold bind at 1.
  pose proof (mkdir_parents_only_mkdirs (parent output_path) w) as Hmk.
  destruct (mkdir_parents (parent output_path) w) as [[[]|e] w1]; simpl in Hmk;
    destruct Hmk as (mk & Htr & Hall & _); apply runs_of_mkdirs in Hall.
  - unfold bind at 1, exists_.
    destruct (present (lookup_path (fs w1) output_path)).
    + unfold bind, print, ret. simpl. exists true. eexists. exists mk.
      split; [reflexivity|]. simpl. rewrite Hall.
      split; [assumption|]. split; [constructor | simpl; lia].
    + unfold bind at 1, print.
      match goal with |- context [compress_pdf _ _ _ _ _ _ ?w2] =>
        destruct (compress_pdf_default_runs ocrmypdf input_path output_path w2)
          as (r & w' & evs & -> & Htr' & Hruns & Hlen)
      end.
      simpl in Htr'.
      destruct r as [b|e]; [exists b, w' | unfold bind, print, ret; simpl; do 2 eexists];
        exists (mk ++ evs); (split; [reflexivity|]); simpl;
        rewrite runs_app, Hall; simpl;
        (split; [rewrite Htr', Htr, <- app_assoc; reflexivity | auto]).
  - unfold bind, print, ret. simpl. do 2 eexists. exists mk.
    split; [reflexivity|]. simpl. rewrite Hall.
    split; [assumption|]. split; [constructor | simpl; lia].
Qed.

Lemma run_pool_runs (ocrmypdf : tool) (tasks : list (path * path)) (w : world) :
  exists futures w' evs,
    run_pool ocrmypdf tasks w = (Val futures, w') /\
    trace w' = trace w ++ evs /\
    Forall (fun cr => exists task, In task tasks /\ run_of_task task cr) (runs evs) /\
    (length (runs evs) <= 9 * length tasks)%nat.
Proof.
  revert w. induction tasks as [|[input_path output_path] tasks IH]; intros w; simpl.
  - exists [], w, []. unfold ret. rewrite app_nil_r. simpl.
    split; [reflexivity|]. split; [reflexivity|]. split; [constructor | lia].
  - unfold bind at 1, run_task. simpl.
    destruct (process_pdf_runs ocrmypdf input_path output_path w)
      as (b & w1 & evs1 & -> & Htr1 & Hruns1 & Hlen1).
    unfold bind at 1.
    destruct (IH w1) as (futures & w2 & evs2 & -> & Htr2 & Hruns2 & Hlen2).
    exists (Returned b :: futures), w2, (evs1 ++ evs2). unfold ret.
    split; [reflexivity|]. split; [rewrite Htr2, Htr1, <- app_assoc; reflexivity|].
    rewrite runs_app. split.
    + apply Forall_app. split.
      * eapply List.Forall_impl; [|exact Hruns1]. intros cr Hcr. eauto.
      * eapply List.Forall_impl; [|exact Hruns2]. intros cr (t & Ht & Hcr). eauto.
    + rewrite length_app. lia.
Qed.

(** X12: a batch runs the tool only for files the glob found whose output
    is not current: every run reads such a file and writes its mirrored
    output path or the temporary sibling of that path, and there are at
    most 9 runs for each submitted file. *)
Theorem batch_runs_only_submitted_files (ocrmypdf : tool)
    (source_path dest_path : path) (w : world) :
  exists files s w' evs,
    glob_pdf source_path w = (Val files, w) /\
    run_batch ocrmypdf source_path dest_path w = (Val s, w') /\
    trace w' = trace w ++ evs /\
    Forall (fun cr =>
              In (inv_input cr.1) files /\
              is_current (fs w) (inv_input cr.1)
                (mirrored source_path dest_path (inv_input cr.1)) = false /\
              run_of_task (inv_input cr.1,
                           mirrored source_path dest_path (inv_input cr.1)) cr)
           (runs evs) /\
    (length (runs evs) <= 9 * (total_files s - skipped_count s))%nat.
Proof.
  destruct (glob_pdf_found source_path w) as (files & Hglob & Hfiles).
  set (w1 := (print ("Found " +:+ pretty (length files) +:+ " PDF files to process") w).2).
  pose proof (submit_loop_found source_path dest_path files w1 0 [] Hfiles) as Hsubmit.
  simpl in Hsubmit.
  match type of Hsubmit with _ = (Val (_, ?tasks), _) =>
    destruct (run_pool_runs ocrmypdf tasks w1)
      as (futures & w2 & evs & Hpool & Htr & Hruns & Hlen)
  end.
  destruct (as_completed_loop_counts futures (length files) 0 0 w2)
    as (p & f & w3 & Hcoll & _ & _ & _ & Htr3 & _).
  exists files. eexists {| total_files := length files; processed_count := p;
                           failed_count := f; skipped_count := _ |}, w3, evs.
  split; [assumption|]. split; [|split; [|split]].
  - unfold run_batch, pool_block. unfold bind at 1. rewrite Hglob.
    unfold bind at 1. change (print _ w) with (Val tt, w1).
    unfold bind at 1. rewrite Hsubmit. simpl.
    unfold bind at 1. rewrite Hpool.
    unfold bind at 1. rewrite Hcoll. reflexivity.
  - rewrite Htr3, Htr. reflexivity.
  - eapply List.Forall_impl; [|exact Hruns].
    intros cr (task & Hin & Hinput & Houtput).
    apply in_map_iff in Hin as (file & <- & Hfile). simpl in Hinput, Houtput.
    apply filter_In in Hfile as [Hfile Hcur]. rewrite Hinput.
    split; [assumption|]. split; [now apply negb_true_iff in Hcur|].
    split; [assumption|]. exact Houtput.
  - simpl. rewrite length_map in Hlen.
    pose proof (filter_length
                  (fun p0 => is_current (fs w) p0 (mirrored source_path dest_path p0)) files)
      as Hsplit.
    simpl in Hlen. lia.
Qed.

(** ** When a job raises *)

Lemma loop_never_raises (ocrmypdf : tool) (input_path output_path temp_output : path)
    (target_size_mb : float) (min_quality : Z) st w ex w' :
  temp_output <> [] ->
  loop_run ocrmypdf input_path output_path temp_output target_size_mb min_quality
    st w ex w' ->
  is_dir (fs w) temp_output = false ->
  (exists x, ex = Val x) \/
  (exists e c stderr partial,
      ex = Exc e /\ last (trace w') = Some (EvRun c (ExitNonzero stderr partial)) /\
      utf8_valid stderr = false).
Proof.
  intros Hnil.
  induction 1 as [st w Hlt | st w st' w1 ex w2 Hge Hat Hrun IH
                 | st w st' w1 Hge Hat | st w b w1 Hge Hat | st w e w1 Hge Hat];
    intros Hdir; eauto.
  - apply IH.
    destruct (attempt_spec ocrmypdf input_path output_path temp_output
                target_size_mb Hnil st w) as (res & w0 & post & Heq & Hcase & _).
    rewrite Hat in Heq. injection Heq as <- <-.
    inversion Hcase; subst;
      match goal with H : fs w1 = _ |- _ => rewrite H end;
      now apply is_dir_deleted.
  - destruct (attempt_spec ocrmypdf input_path output_path temp_output
                target_size_mb Hnil st w) as (res & w0 & post & Heq & Hcase & Htr & _).
    rewrite Hat in Heq. injection Heq as <- <-.
    inversion Hcase; subst; [congruence|]. right.
    do 4 eexists. split; [reflexivity|]. split; [|eassumption].
    rewrite Htr. match goal with H : ExitNonzero _ _ = _ |- _ => rewrite <- H end.
    apply last_snoc.
Qed.

(** With a directory at the temporary path and a run that fails leaving
    nothing, the deletion in the handler raises out of [compress_pdf];
    [process_pdf] turns it into False. *)
Example directory_at_temp_path_raises :
  let w := {| fs := {[ ["out"; "a.temp.pdf"] :=
                        {| st_isdir := true; st_size := 0; st_mtime := 0 |} ]};
              failures_log := []; stdout := []; trace := []; clock := 0 |} in
  (compress_pdf always_failing ["in"; "a.pdf"] ["out"; "a.pdf"]
     default_target_size_mb 40 5 w).1 = Exc (Exception "Is a directory: out/a.temp.pdf") /\
  (process_pdf always_failing ["in"; "a.pdf"] ["out"; "a.pdf"] w).1 = Val false.
Proof. vm_compute. split; reflexivity. Qed.

(** A standard error that is not UTF-8 makes the handler of the failed
    run raise; [process_pdf] turns it into False, and the partial file of
    the run stays at the temporary path. *)
Example garbled_failure_raises :
  let task := process_pdf garbled_failure ["in"; "a.pdf"] ["out"; "a.pdf"] empty_world in
  (compress_pdf garbled_failure ["in"; "a.pdf"] ["out"; "a.pdf"]
     default_target_size_mb 40 5 empty_world).1 =
    Exc (Exception "'utf-8' codec can't decode bytes") /\
  task.1 = Val false /\
  st_size <$> fs task.2 !! ["out"; "a.temp.pdf"] = Some 10.
Proof. vm_compute. repeat split. Qed.

(** X13: a job whose output path has a file name and whose temporary path
    is not a directory returns True or False whatever the tool answers
    (not found, nonzero exit, any other exception), unless its last run
    of the tool exits with a nonzero status and a standard error that is
    not UTF-8: of the handlers, only the decoding of the standard error
    and the deletion of the temporary file (when a directory is in its
    place) can raise out of [compress_pdf]. *)
Theorem job_returns_unless_temp_is_directory (ocrmypdf : tool)
    (input_path output_path temp_output : path)
    (target_size_mb : float) (max_quality min_quality : Z) (w : world) :
  with_suffix output_path ".temp.pdf" = Val temp_output ->
  is_dir (fs w) temp_output = false ->
  let run := compress_pdf ocrmypdf input_path output_path target_size_mb
               max_quality min_quality w in
  (exists b, run.1 = Val b) \/
  (exists e c stderr partial,
      run.1 = Exc e /\
      last (trace run.2) = Some (EvRun c (ExitNonzero stderr partial)) /\
      utf8_valid stderr = false).
Proof.
  intros Htemp Hdir run. subst run. unfold compress_pdf, bind, lift. rewrite Htemp.
  apply with_suffix_fresh in Htemp as [_ Hnil].
  destruct (while_loop_run ocrmypdf input_path output_path temp_output target_size_mb
              min_quality (initial_state max_quality) w) as (ex & w1 & -> & Hrun).
  destruct (loop_never_raises _ _ _ _ _ _ _ _ _ _ Hnil Hrun Hdir)
    as [[[st|b] ->]|(e & c & stderr & partial & -> & Hr & Hutf)].
  - destruct (after_loop_history ocrmypdf input_path output_path target_size_mb st w1)
      as (r & w2 & evs & -> & Htr2 & _ & _ & Hexc). simpl.
    destruct r as [b|e]; [eauto|]. right.
    destruct (Hexc e eq_refl) as (c & stderr & partial & -> & Hutf).
    do 4 eexists. split; [reflexivity|]. split; [|eassumption].
    rewrite Htr2. apply last_snoc.
  - left. unfold ret. eauto.
  - right. simpl. eauto 8.
Qed.

Lemma job_returns_unless_temp_is_directory_witness :
  let run := compress_pdf missing_after_40 ["in"; "a.pdf"] ["out"; "a.pdf"]
               default_target_size_mb 40 5 empty_world in
  (exists b, run.1 = Val b) \/
  (exists e c stderr partial,
      run.1 = Exc e /\
      last (trace run.2) = Some (EvRun c (ExitNonzero stderr partial)) /\
      utf8_valid stderr = false).
Proof.
  apply (job_returns_unless_temp_is_directory missing_after_40 ["in"; "a.pdf"]
           ["out"; "a.pdf"] ["out"; "a.temp.pdf"] default_target_size_mb 40 5 empty_world);
    reflexivity.
Defined.
